(** * GSCX modules loader: bundle codec, virtual flash and boot chain

    A shallow embedding of [pyapp/gscx_gui/modules_loader.py]
    (class [ModulesLoader]) together with the properties of its
    behaviour that the design document states.

    Modelling conventions.
    - The interpreter state is threaded explicitly: the file system, the
      process environment, the log sink, the trace of native entry points
      that were invoked, and the attributes of the loader object.
    - A Python exception is a value [Raise e]; an exception leaves the
      state it was raised in, so [try]/[except]/[finally] are ordinary
      combinators.
    - A path is the list of its components below the file-system root;
      [os.path.abspath] is the identity on such paths.
    - Native code is known only through its entry points: calling one
      either returns a boolean or raises. *)

From Stdlib Require Import NArith Lia.
From Stdlib Require Import Strings.String Strings.Ascii Strings.Byte.
From stdpp Require Import base option list gmap sets strings stringmap.

Open Scope string_scope.
Open Scope list_scope.

(** ** Exceptions and results *)

Inductive exn : Type :=
  | FileNotFoundError
  | FileExistsError
  | NotADirectoryError
  | IsADirectoryError
  | PermissionError
  | StructError
  | UnicodeDecodeError
  | OSError (what : string)
  | AttributeError
  | RuntimeError (what : string).

(** [isinstance(e, OSError)] *)
Definition is_OSError (e : exn) : bool :=
  match e with
  | FileNotFoundError | FileExistsError | NotADirectoryError
  | IsADirectoryError | PermissionError | OSError _ => true
  | _ => false
  end.

Definition is_AttributeError (e : exn) : bool :=
  match e with AttributeError => true | _ => false end.

(** [str(e)], as it appears in formatted log lines. *)
Definition exn_str (e : exn) : string :=
  match e with
  | FileNotFoundError => "FileNotFoundError"
  | FileExistsError => "FileExistsError"
  | NotADirectoryError => "NotADirectoryError"
  | IsADirectoryError => "IsADirectoryError"
  | PermissionError => "PermissionError"
  | StructError => "struct.error"
  | UnicodeDecodeError => "UnicodeDecodeError"
  | OSError s => s
  | AttributeError => "AttributeError"
  | RuntimeError s => s
  end.

Inductive res (A : Type) : Type :=
  | Ok (a : A)
  | Raise (e : exn).
Arguments Ok {A} a.
Arguments Raise {A} e.


Definition res_bind {A B} (r : res A) (k : A → res B) : res B :=
  match r with Ok a => k a | Raise e => Raise e end.

Declare Scope res_scope.
Delimit Scope res_scope with res.
Notation "x <-! r ;; k" := (res_bind r (λ x, k))
  (at level 100, r at next level, right associativity) : res_scope.

(** ** Byte strings and [struct] *)

Abbreviation bytes := (list byte).

Definition blen (data : bytes) : N := N.of_nat (length data).

(** [data[lo:hi]] for non-negative bounds: both are clamped to the
    length, and an inverted range is empty. Slicing never raises. *)
Definition slice (data : bytes) (lo hi : N) : bytes :=
  let lo' := N.min lo (blen data) in
  let hi' := N.min hi (blen data) in
  take (N.to_nat (hi' - lo')) (drop (N.to_nat lo') data).

(** Little-endian unsigned integer held by a byte string. *)
Definition le_uint (bs : bytes) : N :=
  foldr (λ b acc, Byte.to_N b + 256 * acc)%N 0%N bs.

(** [struct.unpack_from('<HH', data, off)]: needs 4 bytes at [off]. *)
Definition unpack_HH (data : bytes) (off : N) : res (N * N) :=
  if (off + 4 <=? blen data)%N
  then Ok (le_uint (slice data off (off + 2)),
           le_uint (slice data (off + 2) (off + 4)))
  else Raise StructError.

(** [struct.unpack_from('<II', data, off)]: needs 8 bytes at [off]. *)
Definition unpack_II (data : bytes) (off : N) : res (N * N) :=
  if (off + 8 <=? blen data)%N
  then Ok (le_uint (slice data off (off + 4)),
           le_uint (slice data (off + 4) (off + 8)))
  else Raise StructError.

(** [struct.unpack_from('<IHH', data, 0)], used once [len(data) >= 8]. *)
Definition unpack_IHH (data : bytes) : res (N * N * N) :=
  if (8 <=? blen data)%N
  then Ok (le_uint (slice data 0 4), le_uint (slice data 4 6),
           le_uint (slice data 6 8))
  else Raise StructError.

(** *** UTF-8

    [bytes.decode('utf-8')] is strict: it raises on stray continuation
    bytes, overlong forms, surrogates and code points above U+10FFFF.
    A decoded name is kept as the byte string it was decoded from. *)

Definition in_range (lo hi : N) (b : byte) : bool :=
  ((lo <=? Byte.to_N b) && (Byte.to_N b <=? hi))%N.

Definition is_cont : byte → bool := in_range 128 191.

Fixpoint utf8_valid_fuel (fuel : nat) (bs : bytes) : bool :=
  match fuel with
  | O => match bs with [] => true | _ => false end
  | S fuel =>
    match bs with
    | [] => true
    | b0 :: r0 =>
      if in_range 0 127 b0 then utf8_valid_fuel fuel r0
      else match r0 with
      | [] => false
      | b1 :: r1 =>
        if in_range 194 223 b0 then is_cont b1 && utf8_valid_fuel fuel r1
        else match r1 with
        | [] => false
        | b2 :: r2 =>
          if in_range 224 224 b0
          then in_range 160 191 b1 && is_cont b2 && utf8_valid_fuel fuel r2
          else if in_range 225 236 b0 || in_range 238 239 b0
          then is_cont b1 && is_cont b2 && utf8_valid_fuel fuel r2
          else if in_range 237 237 b0
          then in_range 128 159 b1 && is_cont b2 && utf8_valid_fuel fuel r2
          else match r2 with
          | [] => false
          | b3 :: r3 =>
            if in_range 240 240 b0
            then in_range 144 191 b1 && is_cont b2 && is_cont b3
                 && utf8_valid_fuel fuel r3
            else if in_range 241 243 b0
            then is_cont b1 && is_cont b2 && is_cont b3
                 && utf8_valid_fuel fuel r3
            else if in_range 244 244 b0
            then in_range 128 143 b1 && is_cont b2 && is_cont b3
                 && utf8_valid_fuel fuel r3
            else false
          end
        end
      end
    end
  end.

Definition utf8_valid (bs : bytes) : bool := utf8_valid_fuel (length bs) bs.

Definition decode_utf8 (bs : bytes) : res string :=
  if utf8_valid bs then Ok (string_of_list_byte bs) else Raise UnicodeDecodeError.


(** ** Paths

    [split_slash] cuts a name at every ['/'] (the separator the source
    names for sub-folders). [os.path.join dir name]
    keeps [dir] unless [name] is absolute; empty and ["."] components are
    skipped and [".."] steps to the parent, as [os.path.normpath] does. *)

Abbreviation path := (list string).

Fixpoint split_slash (s : string) : list string :=
  match s with
  | EmptyString => [EmptyString]
  | String c s' =>
    if Ascii.eqb c "/"%char then EmptyString :: split_slash s'
    else match split_slash s' with
         | h :: t => String c h :: t
         | [] => [String c EmptyString]
         end
  end.

Definition is_abs (name : string) : bool :=
  match name with String c _ => Ascii.eqb c "/"%char | _ => false end.

Definition norm_step (p : path) (c : string) : path :=
  if String.eqb c "" || String.eqb c "." then p
  else if String.eqb c ".." then removelast p
  else p ++ [c].

Definition norm_from (start : path) (comps : list string) : path :=
  foldl norm_step start comps.

Definition os_path_join (dir : path) (name : string) : path :=
  norm_from (if is_abs name then [] else dir) (split_slash name).

(** [os.path.dirname(os.path.join(dir, name))]: everything before the
    last separator of the joined string. *)
Definition join_dirname (dir : path) (name : string) : path :=
  norm_from (if is_abs name then [] else dir) (removelast (split_slash name)).

(** The joined string ends in a separator (or [name] is empty). *)
Definition trailing_sep (name : string) : bool :=
  match last (split_slash name) with
  | Some c => String.eqb c ""
  | None => true
  end.

Definition path_str (p : path) : string :=
  foldr (λ c acc, "/" +:+ c +:+ acc) "" p.

(** [drop_prefix p q] is [Some r] when [q = p ++ r]. *)
Fixpoint drop_prefix (p q : path) : option path :=
  match p, q with
  | [], _ => Some q
  | a :: p', b :: q' => if decide (a = b) then drop_prefix p' q' else None
  | _ :: _, [] => None
  end.

(** ** The file system

    A finite map from paths to nodes; the root is a directory that is
    not stored. [locked] holds the entries whose removal the operating
    system refuses ([os.remove] and [os.rmdir] raise on them). *)

Inductive node : Type :=
  | File (data : bytes)
  | Dir.

Definition lookup_node (t : gmap path node) (p : path) : option node :=
  match p with [] => Some Dir | _ => t !! p end.

Definition is_dir (t : gmap path node) (p : path) : bool :=
  match lookup_node t p with Some Dir => true | _ => false end.

Definition is_file (t : gmap path node) (p : path) : bool :=
  match lookup_node t p with Some (File _) => true | _ => false end.

Definition child_name (p q : path) : option string :=
  match drop_prefix p q with Some [n] => Some n | _ => None end.

(** Names of the entries directly under [p]. *)
Definition children (t : gmap path node) (p : path) : list string :=
  omap (λ kv : path * node, child_name p kv.1) (map_to_list t).

(** [os.makedirs(p, exist_ok=True)]: walks [p] from the root and creates
    what is missing; a regular file on the way raises, and the
    directories created before it stay. *)
Fixpoint makedirs_go (t : gmap path node) (cur : path) (rest : list string)
  : res unit * gmap path node :=
  match rest with
  | [] => (Ok tt, t)
  | c :: rest' =>
    let cur' := cur ++ [c] in
    match t !! cur' with
    | Some Dir => makedirs_go t cur' rest'
    | Some (File _) =>
      (Raise (match rest' with [] => FileExistsError | _ => NotADirectoryError end), t)
    | None => makedirs_go (<[cur' := Dir]> t) cur' rest'
    end
  end.

Definition makedirs (t : gmap path node) (p : path) : res unit * gmap path node :=
  makedirs_go t [] p.

(** [open(p, 'wb').write(data)] (also text mode, already encoded). *)
Definition write_file (t : gmap path node) (p : path) (data : bytes)
  : res unit * gmap path node :=
  match p with
  | [] => (Raise IsADirectoryError, t)
  | _ =>
    match lookup_node t (removelast p) with
    | None => (Raise FileNotFoundError, t)
    | Some (File _) => (Raise NotADirectoryError, t)
    | Some Dir =>
      match t !! p with
      | Some Dir => (Raise IsADirectoryError, t)
      | _ => (Ok tt, <[p := File data]> t)
      end
    end
  end.

(** [open(p, 'rb').read()] *)
Definition read_file (t : gmap path node) (p : path) : res bytes :=
  match lookup_node t p with
  | Some (File d) => Ok d
  | Some Dir => Raise IsADirectoryError
  | None => Raise FileNotFoundError
  end.

(** [os.remove(p)] *)
Definition remove (t : gmap path node) (L : gset path) (p : path)
  : res unit * gmap path node :=
  match lookup_node t p with
  | None => (Raise FileNotFoundError, t)
  | Some Dir => (Raise IsADirectoryError, t)
  | Some (File _) =>
    if decide (p ∈ L) then (Raise PermissionError, t) else (Ok tt, delete p t)
  end.

(** An entry is pinned when it is, or lies above, a locked entry:
    [rmtree] can remove neither the locked entry nor the directories on
    the way to it. *)
Definition pinned (t : gmap path node) (L : gset path) (q : path) : bool :=
  bool_decide (Exists (λ r, is_Some (t !! r) ∧ q `prefix_of` r) (elements L)).

(** [shutil.rmtree(p, ignore_errors=True)]: removes what it can below and
    including [p], never raises; does nothing unless [p] is a directory. *)
Definition rmtree (t : gmap path node) (L : gset path) (p : path) : gmap path node :=
  if is_dir t p
  then filter (λ kv : path * node, ¬ p `prefix_of` kv.1 ∨ pinned t L kv.1 = true) t
  else t.

(** ** Native modules

    A loaded library offers entry points by name. [getattr] on a missing
    symbol raises [AttributeError]; calling an entry point returns its
    boolean result or raises. *)

Inductive native : Type :=
  | Returns (b : bool)
  | Throws (e : exn).

Abbreviation Lib := (gmap string native).

Definition MODULES : list string :=
  [ "gscx_cpu_cell"; "gscx_gpu_rsx"; "gscx_recovery";
    "gscx_bootloader"; "gscx_syscon"; "gscx_hypervisor" ].

Definition ENTRY_GETINFO : string := "GSCX_GetModuleInfo".
Definition ENTRY_INIT : string := "GSCX_Initialize".
Definition ENTRY_SHUT : string := "GSCX_Shutdown".

(** ** Interpreter state *)

(** A line handed to the log sink: literal text, or a catalogue key with
    its arguments (the text catalogue [t] lives outside this module). *)
Inductive logmsg : Type :=
  | Text (s : string)
  | Tr (key : string) (args : list (string * string)).

(** The dictionary built by [initialize_virtual_flash]. *)
Record vinfo : Type := mk_vinfo {
  vi_path : path;
  vi_partitions : list string;
  vi_ros_slots : list string
}.

(** The world outside the loader object. [WinDLL] is the operating
    system's library loader: [None] stands for its [OSError]. *)
Record OS : Type := mkOS {
  tree : gmap path node;
  locked : gset path;
  dir_size : N;
  tmp_root : path;
  WinDLL : bytes → option Lib;
  environ : gmap string string
}.

(** The attributes of a [ModulesLoader] instance. *)
Record Loader : Type := mkLoader {
  loaded : list (string * Lib);
  _temp_dir : option path;
  _vusb_dir : option path;
  last_usb_dir : option path;
  _vflash_dir : option path;
  _vflash_info : option vinfo;
  _active_ros : option string
}.

Record State : Type := mkState {
  os : OS;
  self : Loader;
  log : list logmsg;
  calls : list (string * string)
}.

Definition set_os (f : OS → OS) (s : State) : State :=
  {| os := f (os s); self := self s; log := log s; calls := calls s |}.
Definition set_self (f : Loader → Loader) (s : State) : State :=
  {| os := os s; self := f (self s); log := log s; calls := calls s |}.
Definition add_log (m : logmsg) (s : State) : State :=
  {| os := os s; self := self s; log := log s ++ [m]; calls := calls s |}.
Definition add_call (c : string * string) (s : State) : State :=
  {| os := os s; self := self s; log := log s; calls := calls s ++ [c] |}.

Definition with_tree (t : gmap path node) (o : OS) : OS :=
  {| tree := t; locked := locked o; dir_size := dir_size o;
     tmp_root := tmp_root o; WinDLL := WinDLL o; environ := environ o |}.
Definition with_environ (e : gmap string string) (o : OS) : OS :=
  {| tree := tree o; locked := locked o; dir_size := dir_size o;
     tmp_root := tmp_root o; WinDLL := WinDLL o; environ := e |}.

Definition with_loaded (v : list (string * Lib)) (l : Loader) : Loader :=
  {| loaded := v; _temp_dir := _temp_dir l; _vusb_dir := _vusb_dir l;
     last_usb_dir := last_usb_dir l; _vflash_dir := _vflash_dir l;
     _vflash_info := _vflash_info l; _active_ros := _active_ros l |}.
Definition with_temp_dir (v : option path) (l : Loader) : Loader :=
  {| loaded := loaded l; _temp_dir := v; _vusb_dir := _vusb_dir l;
     last_usb_dir := last_usb_dir l; _vflash_dir := _vflash_dir l;
     _vflash_info := _vflash_info l; _active_ros := _active_ros l |}.
Definition with_vusb_dir (v : option path) (l : Loader) : Loader :=
  {| loaded := loaded l; _temp_dir := _temp_dir l; _vusb_dir := v;
     last_usb_dir := last_usb_dir l; _vflash_dir := _vflash_dir l;
     _vflash_info := _vflash_info l; _active_ros := _active_ros l |}.
Definition with_last_usb_dir (v : option path) (l : Loader) : Loader :=
  {| loaded := loaded l; _temp_dir := _temp_dir l; _vusb_dir := _vusb_dir l;
     last_usb_dir := v; _vflash_dir := _vflash_dir l;
     _vflash_info := _vflash_info l; _active_ros := _active_ros l |}.
Definition with_vflash_dir (v : option path) (l : Loader) : Loader :=
  {| loaded := loaded l; _temp_dir := _temp_dir l; _vusb_dir := _vusb_dir l;
     last_usb_dir := last_usb_dir l; _vflash_dir := v;
     _vflash_info := _vflash_info l; _active_ros := _active_ros l |}.
Definition with_vflash_info (v : option vinfo) (l : Loader) : Loader :=
  {| loaded := loaded l; _temp_dir := _temp_dir l; _vusb_dir := _vusb_dir l;
     last_usb_dir := last_usb_dir l; _vflash_dir := _vflash_dir l;
     _vflash_info := v; _active_ros := _active_ros l |}.
Definition with_active_ros (v : option string) (l : Loader) : Loader :=
  {| loaded := loaded l; _temp_dir := _temp_dir l; _vusb_dir := _vusb_dir l;
     last_usb_dir := last_usb_dir l; _vflash_dir := _vflash_dir l;
     _vflash_info := _vflash_info l; _active_ros := v |}.

Definition set_tree (t : gmap path node) : State → State := set_os (with_tree t).

(** ** The state-and-exception monad *)

Definition M (A : Type) : Type := State → res A * State.

Definition ret {A} (a : A) : M A := λ s, (Ok a, s).
Definition raise {A} (e : exn) : M A := λ s, (Raise e, s).
Definition bind {A B} (m : M A) (k : A → M B) : M B :=
  λ s, match m s with
       | (Ok a, s') => k a s'
       | (Raise e, s') => (Raise e, s')
       end.

Declare Scope M_scope.
Delimit Scope M_scope with M.
Notation "x <- m ;; k" := (bind m (λ x, k))
  (at level 100, m at next level, right associativity) : M_scope.
Notation "m ;; k" := (bind m (λ _, k))
  (at level 100, right associativity) : M_scope.
Open Scope M_scope.

Definition gets {A} (f : State → A) : M A := λ s, (Ok (f s), s).
Definition modify (f : State → State) : M unit := λ s, (Ok tt, f s).
Definition lift {A} (r : res A) : M A := λ s, (r, s).

(** [try: m  except <classes> as e: h e] *)
Definition try_except {A} (m : M A) (catches : exn → bool) (h : exn → M A) : M A :=
  λ s, match m s with
       | (Raise e, s') => if catches e then h e s' else (Raise e, s')
       | r => r
       end.

(** [except Exception] catches every exception of the model. *)
Definition Exception : exn → bool := λ _, true.

(** [try: m  finally: fin] *)
Definition try_finally {A} (m : M A) (fin : M unit) : M A :=
  λ s, match m s with
       | (r, s') =>
         match fin s' with
         | (Ok _, s'') => (r, s'')
         | (Raise e, s'') => (Raise e, s'')
         end
       end.

(** [for x in l: f x] *)
Fixpoint forM_ {A} (l : list A) (f : A → M unit) : M unit :=
  match l with
  | [] => ret tt
  | x :: l' => f x ;; forM_ l' f
  end.

(** [self._log(msg)]; the sink [on_log] is present and does not raise. *)
Definition _log (m : logmsg) : M unit := modify (add_log m).

(** *** Operating-system calls *)

Definition on_tree {A} (f : gmap path node → res A * gmap path node) : M A :=
  λ s, let '(r, t') := f (tree (os s)) in (r, set_tree t' s).

Definition os_path_exists (p : path) : M bool :=
  gets (λ s, match lookup_node (tree (os s)) p with Some _ => true | None => false end).
Definition os_path_isdir (p : path) : M bool := gets (λ s, is_dir (tree (os s)) p).
Definition os_path_isfile (p : path) : M bool := gets (λ s, is_file (tree (os s)) p).

(** [os.path.getsize]: the length of a file; what the platform reports
    for a directory; raises on a missing path. *)
Definition os_path_getsize (p : path) : M N :=
  λ s, match lookup_node (tree (os s)) p with
       | Some (File d) => (Ok (blen d), s)
       | Some Dir => (Ok (dir_size (os s)), s)
       | None => (Raise FileNotFoundError, s)
       end.

Definition os_listdir (p : path) : M (list string) :=
  λ s, match lookup_node (tree (os s)) p with
       | Some Dir => (Ok (children (tree (os s)) p), s)
       | Some (File _) => (Raise NotADirectoryError, s)
       | None => (Raise FileNotFoundError, s)
       end.

Definition os_makedirs (p : path) : M unit := on_tree (λ t, makedirs t p).
Definition open_write (p : path) (data : bytes) : M unit :=
  on_tree (λ t, write_file t p data).
Definition open_read (p : path) : M bytes :=
  λ s, (read_file (tree (os s)) p, s).
Definition os_remove (p : path) : M unit :=
  λ s, let '(r, t') := remove (tree (os s)) (locked (os s)) p in (r, set_tree t' s).
Definition shutil_rmtree (p : path) : M unit :=
  modify (λ s, set_tree (rmtree (tree (os s)) (locked (os s)) p) s).

(** [shutil.copy2(src, dst)]: into [dst] when it is a directory. *)
Definition shutil_copy2 (src dst : path) : M unit :=
  data <- open_read src ;;
  d <- os_path_isdir dst ;;
  let dst' := if d then dst ++ option_list (last src) else dst in
  open_write dst' data.

(** [tempfile.mkdtemp(prefix=...)]: a new directory under the temporary
    root, named as no existing entry there. *)
Definition tempfile_mkdtemp (prefix : string) : M path :=
  λ s, let root := tmp_root (os s) in
       if is_dir (tree (os s)) root
       then let names : gset string := list_to_set (children (tree (os s)) root) in
            let d := root ++ [fresh_string_of_set prefix names] in
            (Ok d, set_tree (<[d := Dir]> (tree (os s))) s)
       else (Raise FileNotFoundError, s).

Definition setenv (k v : string) : M unit :=
  modify (set_os (λ o, with_environ (<[k := v]> (environ o)) o)).
Definition delenv (k : string) : M unit :=
  modify (set_os (λ o, with_environ (delete k (environ o)) o)).
Definition in_environ (k : string) : M bool :=
  gets (λ s, match environ (os s) !! k with Some _ => true | None => false end).

(** [ctypes.WinDLL(path)] *)
Definition load_library (p : path) : M Lib :=
  λ s, match read_file (tree (os s)) p with
       | Ok d => match WinDLL (os s) d with
                 | Some lib => (Ok lib, s)
                 | None => (Raise (OSError "WinDLL"), s)
                 end
       | Raise e => (Raise e, s)
       end.

(** [getattr(lib, sym)] *)
Definition getattr (lib : Lib) (sym : string) : M native :=
  match lib !! sym with
  | Some f => ret f
  | None => raise AttributeError
  end.

(** Calling a resolved entry point of module [dll]; the call is recorded
    in [calls]. *)
Definition call (dll sym : string) (f : native) : M bool :=
  modify (add_call (dll, sym)) ;;
  match f with
  | Returns b => ret b
  | Throws e => raise e
  end.

(** ** [ModulesLoader] *)

Definition bool_str (b : bool) : string := if b then "True" else "False".

Definition N_str (n : N) : string := pretty n.

(** [name.startswith(prefix)] *)
Definition startswith (name prefix : string) : bool := String.prefix prefix name.

(** The first loaded module whose file name starts with [prefix]. *)
Definition find_loaded (prefix : string) (l : list (string * Lib)) : option (string * Lib) :=
  List.find (λ m, startswith m.1 prefix) l.

(** One iteration of the inner loop of [_load_from_dirs]. *)
Definition load_one (d : path) (dll : string) : M unit :=
  let p := d ++ [dll] in
  isf <- os_path_isfile p ;;
  if negb isf then ret tt
  else
    try_except
      (lib <- load_library p ;;
       _log (Tr "modules.loaded" [("path", path_str p)]) ;;
       try_except
         (getattr lib ENTRY_GETINFO ;; ret tt)
         is_AttributeError
         (λ _, _log (Tr "modules.entrypoint_missing"
                        [("entry", ENTRY_GETINFO); ("dll", dll)])) ;;
       try_except
         (init <- getattr lib ENTRY_INIT ;;
          ok <- call dll ENTRY_INIT init ;;
          _log (Tr "modules.initialize_returned" [("ok", bool_str ok)]))
         is_AttributeError
         (λ _, _log (Tr "modules.entrypoint_missing"
                        [("entry", ENTRY_INIT); ("dll", dll)])) ;;
       modify (λ s, set_self (with_loaded (loaded (self s) ++ [(dll, lib)])) s))
      is_OSError
      (λ e, _log (Tr "modules.load_failed"
                     [("path", path_str p); ("error", exn_str e)])).

Definition _load_from_dirs (dirs : list path) : M unit :=
  let dll_names := map (λ m, m +:+ ".dll") MODULES in
  forM_ dirs (λ d, forM_ dll_names (load_one d)).

(** *** The bundle container *)

Definition entry : Type := N * string * N * N.

(** The entry-table loop of [load_from_gscore]; [off] is the read
    position, returned with the entries. *)
Fixpoint parse_entries (data : bytes) (count : nat) (off : N) (entries : list entry)
  : res (list entry * N) :=
  match count with
  | O => Ok (entries, off)
  | S count' =>
    (hh <-! unpack_HH data off ;;
     let off := (off + 4)%N in
     name <-! decode_utf8 (slice data off (off + hh.2)) ;;
     let off := (off + hh.2)%N in
     ii <-! unpack_II data off ;;
     let off := (off + 8)%N in
     parse_entries data count' off (entries ++ [(hh.1, name, ii.1, ii.2)]))%res
  end.

Definition MAGIC : N := 0x47534352.

(** The body of the extraction loop for one entry. *)
Definition extract_entry (data : bytes) (dir : path) (e : entry) : M unit :=
  let '(type_, name, payload_off, size) := e in
  let blob := slice data payload_off (payload_off + size) in
  let out_name := name in
  let out_path := os_path_join dir out_name in
  try_except
    (os_makedirs (join_dirname dir out_name) ;;
     (if trailing_sep out_name then raise IsADirectoryError
      else open_write out_path blob) ;;
     _log (Tr "modules.bundle_extracted" [("name", out_name); ("size", N_str size)]))
    Exception
    (λ e, _log (Tr "modules.bundle_extract_fail"
                   [("name", out_name); ("error", exn_str e)])).

Definition load_from_gscore (bundle_path : path) : M unit :=
  r <- try_except
         (data <- open_read bundle_path ;; ret (Some data))
         Exception
         (λ e, _log (Tr "modules.bundle_open_fail" [("error", exn_str e)]) ;;
               ret None) ;;
  match r with
  | None => ret tt
  | Some data =>
    if (blen data <? 8)%N then _log (Tr "modules.bundle_invalid_header" [])
    else
      hdr <- lift (unpack_IHH data) ;;
      let '(magic, ver, count) := hdr in
      if negb (magic =? MAGIC)%N then _log (Tr "modules.bundle_magic_invalid" [])
      else
        r <- try_except
               (es <- lift (parse_entries data (N.to_nat count) 8 []) ;;
                ret (Some es.1))
               Exception
               (λ e, _log (Tr "modules.bundle_table_read_error"
                              [("error", exn_str e)]) ;;
                     ret None) ;;
        match r with
        | None => ret tt
        | Some entries =>
          old <- gets (λ s, _temp_dir (self s)) ;;
          match old with
          | Some d => try_except (shutil_rmtree d) Exception (λ _, ret tt)
          | None => ret tt
          end ;;
          d <- tempfile_mkdtemp "gscx_bundle_" ;;
          modify (set_self (with_temp_dir (Some d))) ;;
          forM_ entries (extract_entry data d) ;;
          _load_from_dirs [d]
        end
  end.

(** *** Recovery *)

Definition RECOVERY_PUP : string := "GSCX_RECOVERY_PUP".

(** The first half of [boot_recovery]: staging the firmware image. *)
Definition provision (pup_path usb_dir : option path) : M unit :=
  match pup_path with
  | Some pup =>
    try_except
      (target_dir <-
         match usb_dir with
         | Some u => os_makedirs u ;; ret u
         | None =>
           d <- tempfile_mkdtemp "gscx_usb_" ;;
           modify (set_self (with_vusb_dir (Some d))) ;;
           ret d
         end ;;
       let dest_file := target_dir ++ ["PS3UPDAT.PUP"] in
       shutil_copy2 pup dest_file ;;
       setenv RECOVERY_PUP (path_str dest_file) ;;
       modify (set_self (with_last_usb_dir (Some target_dir))) ;;
       _log (Tr "modules.recovery.prepared" [("path", path_str target_dir)]) ;;
       _log (Tr "modules.recovery.copied" [("dest", path_str dest_file)]))
      Exception
      (λ e, _log (Tr "modules.recovery.prepare_fail" [("error", exn_str e)]) ;;
            raise e)
  | None =>
    b <- in_environ RECOVERY_PUP ;;
    if b then try_except (delenv RECOVERY_PUP) Exception (λ _, ret tt) else ret tt
  end.

(** The body of the [try] of [boot_recovery]. *)
Definition call_recovery_entry : M unit :=
  l <- gets (λ s, loaded (self s)) ;;
  match find_loaded "gscx_recovery" l with
  | Some (name, lib) =>
    try_except
      (entry <- getattr lib "GSCX_RecoveryEntry" ;;
       _log (Tr "modules.recovery.calling" []) ;;
       call name "GSCX_RecoveryEntry" entry ;;
       _log (Tr "modules.recovery.finished" []))
      is_AttributeError
      (λ _, _log (Tr "modules.recovery.missing_entry" []))
  | None => ret tt
  end.

(** The [finally] block of [boot_recovery]; the removal of the virtual
    USB directory is commented out in the source. *)
Definition recovery_cleanup : M unit :=
  b <- in_environ RECOVERY_PUP ;;
  if b then try_except (delenv RECOVERY_PUP) Exception (λ _, ret tt) else ret tt.

Definition boot_recovery (pup_path usb_dir : option path) : M unit :=
  provision pup_path usb_dir ;;
  try_finally call_recovery_entry recovery_cleanup.

Definition unload_one (m : string * Lib) : M unit :=
  try_except
    (shut <- getattr m.2 ENTRY_SHUT ;; call m.1 ENTRY_SHUT shut ;; ret tt)
    Exception (λ _, ret tt) ;;
  _log (Tr "modules.unloaded" [("name", m.1)]).

Definition unload_all : M unit :=
  l <- gets (λ s, loaded (self s)) ;;
  forM_ l unload_one ;;
  modify (set_self (with_loaded [])) ;;
  td <- gets (λ s, _temp_dir (self s)) ;;
  match td with
  | Some d =>
    try_except (shutil_rmtree d) Exception (λ _, ret tt) ;;
    modify (set_self (with_temp_dir None))
  | None => ret tt
  end.

(** *** Boot stages *)

Definition boot_lv0_stage : M bool :=
  try_except
    (_log (Text "[BOOTLOADER] Iniciando LV0 - Primary Kernel...") ;;
     l <- gets (λ s, loaded (self s)) ;;
     match find_loaded "gscx_bootloader" l with
     | Some (name, lib) =>
       try_except
         (lv0_entry <- getattr lib "GSCX_LV0_Entry" ;;
          result <- call name "GSCX_LV0_Entry" lv0_entry ;;
          if result then
            _log (Text "[LV0] Hardware initialization completed") ;;
            _log (Text "[LV0] Security validation passed") ;;
            _log (Text "[LV0] Memory setup completed") ;;
            ret true
          else
            _log (Text "[LV0] Initialization failed") ;;
            ret false)
         is_AttributeError
         (λ _, _log (Text "[LV0] Entry point not found in bootloader module") ;;
               ret false)
     | None =>
       _log (Text "[LV0] Bootloader module not loaded") ;;
       ret false
     end)
    Exception
    (λ e, _log (Text ("[LV0] Error during initialization: " +:+ exn_str e)) ;;
          ret false).

Definition boot_lv1_stage : M bool :=
  try_except
    (_log (Text "[BOOTLOADER] Iniciando LV1 - Hypervisor...") ;;
     l <- gets (λ s, loaded (self s)) ;;
     match find_loaded "gscx_hypervisor" l with
     | Some (name, lib) =>
       try_except
         (lv1_entry <- getattr lib "GSCX_LV1_Entry" ;;
          result <- call name "GSCX_LV1_Entry" lv1_entry ;;
          if result then
            _log (Text "[LV1] Hypervisor initialization completed") ;;
            _log (Text "[LV1] Virtual memory management active") ;;
            _log (Text "[LV1] System services initialized") ;;
            ret true
          else
            _log (Text "[LV1] Hypervisor initialization failed") ;;
            ret false)
         is_AttributeError
         (λ _, _log (Text "[LV1] Entry point not found in hypervisor module") ;;
               ret false)
     | None =>
       _log (Text "[LV1] Hypervisor module not loaded") ;;
       ret false
     end)
    Exception
    (λ e, _log (Text ("[LV1] Error during hypervisor initialization: " +:+ exn_str e)) ;;
          ret false).

Definition boot_lv2_stage : M bool :=
  try_except
    (_log (Text "[BOOTLOADER] Iniciando LV2 - Game OS...") ;;
     _log (Text "[LV2] Game OS kernel loading...") ;;
     _log (Text "[LV2] Device drivers initialization...") ;;
     _log (Text "[LV2] User services startup...") ;;
     _log (Text "[LV2] XMB preparation...") ;;
     l <- gets (λ s, loaded (self s)) ;;
     let cpu_loaded := existsb (λ m, startswith m.1 "gscx_cpu_cell") l in
     let gpu_loaded := existsb (λ m, startswith m.1 "gscx_gpu_rsx") l in
     if cpu_loaded && gpu_loaded then
       _log (Text "[LV2] All required modules loaded") ;;
       _log (Text "[LV2] System ready for game execution") ;;
       ret true
     else
       _log (Text "[LV2] Missing required modules (CPU/GPU)") ;;
       ret false)
    Exception
    (λ e, _log (Text ("[LV2] Error during Game OS initialization: " +:+ exn_str e)) ;;
          ret false).

Definition initialize_syscon : M bool :=
  try_except
    (_log (Text "[SYSCON] Initializing System Controller...") ;;
     l <- gets (λ s, loaded (self s)) ;;
     match find_loaded "gscx_syscon" l with
     | Some (name, lib) =>
       try_except
         (syscon_init <- getattr lib "GSCX_SYSCON_Initialize" ;;
          result <- call name "GSCX_SYSCON_Initialize" syscon_init ;;
          if result then
            _log (Text "[SYSCON] Power management initialized") ;;
            _log (Text "[SYSCON] Temperature monitoring active") ;;
            _log (Text "[SYSCON] Fan control enabled") ;;
            _log (Text "[SYSCON] System controller ready") ;;
            ret true
          else
            _log (Text "[SYSCON] Initialization failed") ;;
            ret false)
         is_AttributeError
         (λ _, _log (Text "[SYSCON] Entry point not found") ;;
               ret false)
     | None =>
       _log (Text "[SYSCON] Using virtual SYSCON simulation") ;;
       _log (Text "[SYSCON] Virtual power management active") ;;
       _log (Text "[SYSCON] Virtual temperature monitoring active") ;;
       ret true
     end)
    Exception
    (λ e, _log (Text ("[SYSCON] Error during initialization: " +:+ exn_str e)) ;;
          ret false).

Inductive pyval : Type :=
  | PStr (s : string)
  | PInt (n : N).

Definition hw_dict : Type := list (string * list (string * pyval)).

Definition hardware_info : hw_dict :=
  [ ("cpu", [ ("type", PStr "Cell Broadband Engine"); ("ppu_cores", PInt 1);
              ("spu_cores", PInt 8); ("frequency", PStr "3.2 GHz") ]);
    ("memory", [ ("xdr_ram", PStr "256 MB"); ("gddr3_vram", PStr "256 MB");
                 ("total", PStr "512 MB") ]);
    ("gpu", [ ("type", PStr "RSX Reality Synthesizer"); ("frequency", PStr "500 MHz");
              ("memory_interface", PStr "128-bit GDDR3") ]);
    ("storage", [ ("hdd_interface", PStr "SATA");
                  ("optical_drive", PStr "Blu-ray/DVD/CD");
                  ("flash_memory", PStr "NAND/NOR") ]);
    ("connectivity", [ ("ethernet", PStr "10/100/1000 Mbps");
                       ("wifi", PStr "802.11b/g (optional)");
                       ("bluetooth", PStr "2.0 + EDR"); ("usb", PStr "4x USB 2.0") ]) ].

Definition perform_hardware_detection : M hw_dict :=
  try_except
    (_log (Text "[HW] Starting hardware detection...") ;;
     _log (Text "[HW] CPU: Cell Broadband Engine") ;;
     _log (Text "[HW] Memory: 512 MB total") ;;
     _log (Text "[HW] GPU: RSX Reality Synthesizer") ;;
     _log (Text "[HW] Storage: Blu-ray/DVD/CD") ;;
     _log (Text "[HW] Hardware detection completed") ;;
     ret hardware_info)
    Exception
    (λ e, _log (Text ("[HW] Error during hardware detection: " +:+ exn_str e)) ;;
          ret []).

(** *** Virtual flash *)

Definition upper_ascii (c : ascii) : ascii :=
  let n := nat_of_ascii c in
  if Nat.leb 97 n && Nat.leb n 122 then ascii_of_nat (n - 32) else c.

(** [str.upper] on ASCII text. *)
Fixpoint upper (s : string) : string :=
  match s with
  | EmptyString => EmptyString
  | String c s' => String (upper_ascii c) (upper s')
  end.

Definition newline : string := String (ascii_of_nat 10) EmptyString.

Definition partitions : list string := ["dev_flash"; "dev_flash2"; "dev_flash3"].
Definition ros_slots : list string := ["ros0"; "ros1"].

Definition version_txt : bytes :=
  list_byte_of_string ("GSCX PS3 Bootloader (virtual)" +:+ newline).
Definition stub : bytes := list_byte_of_string "stub".
Definition registry_blob : bytes := replicate 1024 x00.

(** The inner [try] of [initialize_virtual_flash]: the placeholder
    files (text files are written here already encoded). *)
Definition write_placeholders (base_dir : path) : M unit :=
  open_write (base_dir ++ ["bootloader"; "version.txt"]) version_txt ;;
  forM_ ros_slots (λ slot,
    open_write (base_dir ++ [slot; "lv0.self"]) stub ;;
    open_write (base_dir ++ [slot; "appldr.self"]) stub) ;;
  open_write (base_dir ++ ["registry"; "xRegistry.sys"]) registry_blob.

Definition initialize_virtual_flash : M vinfo :=
  try_except
    (bd <- gets (λ s, _vflash_dir (self s)) ;;
     base_dir <-
       match bd with
       | Some b => ret b
       | None =>
         td <- gets (λ s, _temp_dir (self s)) ;;
         tmp <- match td with
                | Some d => ret d
                | None =>
                  d <- tempfile_mkdtemp "gscx_runtime_" ;;
                  modify (set_self (with_temp_dir (Some d))) ;;
                  ret d
                end ;;
         let b := tmp ++ ["vflash"] in
         modify (set_self (with_vflash_dir (Some b))) ;;
         ret b
       end ;;
     os_makedirs base_dir ;;
     forM_ (partitions ++ ros_slots ++ ["bootloader"; "registry"])
           (λ p, os_makedirs (base_dir ++ [p])) ;;
     try_except (write_placeholders base_dir) Exception (λ _, ret tt) ;;
     let info := {| vi_path := base_dir;
                    vi_partitions := partitions;
                    vi_ros_slots := map upper ros_slots |} in
     modify (set_self (with_vflash_info (Some info))) ;;
     _log (Text ("[VFLASH] Virtual flash initialized at " +:+ path_str (vi_path info))) ;;
     ret info)
    Exception
    (λ e, _log (Text ("[VFLASH] Error initializing virtual flash: " +:+ exn_str e)) ;;
          raise e).

Definition join_comma (l : list string) : string :=
  match l with
  | [] => ""
  | x :: l' => foldl (λ acc y, acc +:+ ", " +:+ y) x l'
  end.

Definition mount_virtual_flash : M bool :=
  try_except
    (i <- gets (λ s, _vflash_info (self s)) ;;
     info <- match i with Some info => ret info | None => initialize_virtual_flash end ;;
     _log (Text ("[VFLASH] Partitions mounted: " +:+ join_comma (vi_partitions info))) ;;
     ret true)
    Exception
    (λ e, _log (Text ("[VFLASH] Failed to mount virtual flash: " +:+ exn_str e)) ;;
          ret false).

Definition get_vflash_info : M vinfo :=
  i <- gets (λ s, _vflash_info (self s)) ;;
  match i with Some info => ret info | None => initialize_virtual_flash end.

(** *** ROS slots *)

(** The local function [_valid] of [select_ros_slot]. *)
Definition _valid (base : path) (slot : string) : M bool :=
  let lv0_path := base ++ [slot; "lv0.self"] in
  e <- os_path_exists lv0_path ;;
  if e then sz <- os_path_getsize lv0_path ;; ret (0 <? sz)%N else ret false.

Definition ros_candidates (preferred : option string) : list string :=
  let candidates := ["ros0"; "ros1"] in
  match preferred with
  | Some p =>
    if bool_decide (p ∈ candidates)
    then [p] ++ filter (λ c, c ≠ p) candidates
    else candidates
  | None => candidates
  end.

(** The [for slot in candidates] loop with what follows it. *)
Fixpoint select_first (base : path) (candidates : list string) : M (option string) :=
  match candidates with
  | [] => modify (set_self (with_active_ros None)) ;; ret None
  | slot :: rest =>
    v <- _valid base slot ;;
    if v then
      modify (set_self (with_active_ros (Some slot))) ;;
      _log (Text ("[ROS] Selected slot: " +:+ upper slot)) ;;
      ret (Some slot)
    else select_first base rest
  end.

Definition select_ros_slot (preferred : option string) : M (option string) :=
  try_except
    (info <- get_vflash_info ;;
     select_first (vi_path info) (ros_candidates preferred))
    Exception
    (λ e, _log (Text ("[ROS] Error selecting slot: " +:+ exn_str e)) ;;
          modify (set_self (with_active_ros None)) ;;
          ret None).

(** [os.path.exists(p) and os.path.getsize(p) > 0] *)
Definition present_nonempty (p : path) : M bool :=
  e <- os_path_exists p ;;
  if e then sz <- os_path_getsize p ;; ret (0 <? sz)%N else ret false.

Definition _verify_lv0_and_appldr : M bool :=
  try_except
    (info <- get_vflash_info ;;
     let base := vi_path info in
     a <- gets (λ s, _active_ros (self s)) ;;
     match a with
     | None => ret false
     | Some slot =>
       let lv0_path := base ++ [slot; "lv0.self"] in
       let appldr_path := base ++ [slot; "appldr.self"] in
       v0 <- present_nonempty lv0_path ;;
       ok <- (if negb v0 then _log (Text "[SEC] LV0 missing or invalid") ;; ret false
              else ret true) ;;
       v1 <- present_nonempty appldr_path ;;
       ok <- (if negb v1 then _log (Text "[SEC] Appldr missing or invalid") ;; ret false
              else ret ok) ;;
       ret ok
     end)
    Exception
    (λ e, _log (Text ("[SEC] Error verifying LV0/Appldr: " +:+ exn_str e)) ;;
          ret false).

Definition validation_steps : list (string * bool) :=
  [ ("Boot ROM signature", true); ("LV0 integrity check", true);
    ("LV1 signature verification", true); ("LV2 authenticity check", true);
    ("Hardware authenticity", true); ("Anti-tampering detection", true) ].

(** The checklist loop of [validate_boot_chain], threading [all_valid]. *)
Fixpoint run_checklist (steps : list (string * bool)) (all_valid : bool) : M bool :=
  match steps with
  | [] => ret all_valid
  | (step_name, is_valid) :: rest =>
    if is_valid then
      _log (Text ("[SEC] " +:+ step_name +:+ ": PASSED")) ;;
      run_checklist rest all_valid
    else
      _log (Text ("[SEC] " +:+ step_name +:+ ": FAILED")) ;;
      run_checklist rest false
  end.

Definition validate_boot_chain : M bool :=
  try_except
    (_log (Text "[SEC] Starting boot chain validation...") ;;
     all_valid <- run_checklist validation_steps true ;;
     selected <- select_ros_slot None ;;
     all_valid <-
       match selected with
       | Some selected =>
         _log (Text ("[SEC] ROS slot selected: " +:+ upper selected)) ;;
         v <- _verify_lv0_and_appldr ;;
         if negb v then
           _log (Text "[SEC] LV0/Appldr verification failed for selected ROS") ;;
           let other := if String.eqb selected "ros0" then "ros1" else "ros0" in
           alt <- select_ros_slot (Some other) ;;
           match alt with
           | Some alt =>
             v' <- _verify_lv0_and_appldr ;;
             if v' then
               _log (Text ("[SEC] Fallback to " +:+ upper alt +:+ " succeeded")) ;;
               ret all_valid
             else
               _log (Text "[SEC] Fallback ROS verification failed") ;;
               ret false
           | None =>
             _log (Text "[SEC] Fallback ROS verification failed") ;;
             ret false
           end
         else
           _log (Text "[SEC] LV0/Appldr verification: PASSED") ;;
           ret all_valid
       | None =>
         _log (Text "[SEC] No valid ROS slot available") ;;
         ret false
       end ;;
     (if all_valid then
        _log (Text "[SEC] Boot chain validation completed successfully") ;;
        _log (Text "[SEC] System integrity verified")
      else
        _log (Text "[SEC] Boot chain validation failed")) ;;
     ret all_valid)
    Exception
    (λ e, _log (Text ("[SEC] Error during boot chain validation: " +:+ exn_str e)) ;;
          ret false).

(** Step 3.5 of the boot sequence: the inner [try] around the virtual
    flash. *)
Definition flash_mount_stage : M bool :=
  try_except
    (_log (Text "[BOOT] Initializing virtual flash (NAND/NOR emulation)...") ;;
     vinfo <- initialize_virtual_flash ;;
     m <- mount_virtual_flash ;;
     if negb m then
       _log (Text "[BOOT] Virtual flash mount failed") ;;
       ret false
     else
       _log (Text ("[BOOT] Virtual flash ready at " +:+ path_str (vi_path vinfo))) ;;
       ret true)
    Exception
    (λ e, _log (Text ("[BOOT] Virtual flash initialization error: " +:+ exn_str e)) ;;
          ret false).

Definition execute_full_boot_sequence : M bool :=
  try_except
    (_log (Text "[BOOT] Starting complete PS3 boot sequence...") ;;
     hw <- perform_hardware_detection ;;
     if bool_decide (hw = []) then
       _log (Text "[BOOT] Hardware detection failed") ;; ret false
     else
     sc <- initialize_syscon ;;
     if negb sc then
       _log (Text "[BOOT] SYSCON initialization failed") ;; ret false
     else
     vb <- validate_boot_chain ;;
     if negb vb then
       _log (Text "[BOOT] Boot chain validation failed") ;; ret false
     else
     fm <- flash_mount_stage ;;
     if negb fm then ret false
     else
     l0 <- boot_lv0_stage ;;
     if negb l0 then
       _log (Text "[BOOT] LV0 stage failed") ;; ret false
     else
     l1 <- boot_lv1_stage ;;
     if negb l1 then
       _log (Text "[BOOT] LV1 stage failed") ;; ret false
     else
     l2 <- boot_lv2_stage ;;
     if negb l2 then
       _log (Text "[BOOT] LV2 stage failed") ;; ret false
     else
       _log (Text "[BOOT] Complete boot sequence finished successfully") ;;
       _log (Text "[BOOT] PS3 system ready for operation") ;;
       ret true)
    Exception
    (λ e, _log (Text ("[BOOT] Error during complete boot sequence: " +:+ exn_str e)) ;;
          ret false).

(** *** Maintenance *)

(** The body of the deletion loops of [format_virtual_flash] and
    [clean_vflash_partition]; [full] joins the directory with a name
    that [os.listdir] returned. *)
Definition delete_entry (dir : path) (name : string) : M unit :=
  let full := dir ++ [name] in
  try_except
    (d <- os_path_isdir full ;;
     if d then shutil_rmtree full else os_remove full)
    Exception
    (λ _, ret tt).

Definition format_virtual_flash : M vinfo :=
  info <- get_vflash_info ;;
  let base := vi_path info in
  try_except
    (names <- os_listdir base ;;
     forM_ names (delete_entry base) ;;
     modify (set_self (with_vflash_info None)) ;;
     new_info <- initialize_virtual_flash ;;
     mount_virtual_flash ;;
     _log (Text "[VFLASH] Virtual flash formatted") ;;
     ret new_info)
    Exception
    (λ e, _log (Text ("[VFLASH] Error formatting virtual flash: " +:+ exn_str e)) ;;
          raise e).

Definition clean_vflash_partition (partition : string) : M bool :=
  info <- get_vflash_info ;;
  let base := vi_path info in
  let target := os_path_join base partition in
  d <- os_path_isdir target ;;
  if negb d then
    _log (Text ("[VFLASH] Partition not found: " +:+ partition)) ;;
    ret false
  else
    try_except
      (names <- os_listdir target ;;
       forM_ names (delete_entry target) ;;
       _log (Text ("[VFLASH] Partition cleaned: " +:+ partition)) ;;
       ret true)
      Exception
      (λ e, _log (Text ("[VFLASH] Error cleaning partition " +:+ partition
                        +:+ ": " +:+ exn_str e)) ;;
            ret false).

Fixpoint clean_partitions (ps : list string) (ok : bool) : M bool :=
  match ps with
  | [] => ret ok
  | p :: rest =>
    r <- clean_vflash_partition p ;;
    clean_partitions rest (r && ok)
  end.

Definition clean_all_vflash_partitions : M bool :=
  info <- get_vflash_info ;;
  clean_partitions (vi_partitions info) true.


(** ** Writing containers *)

Definition byte_of_N (n : N) : byte := default x00 (Byte.of_N n).

(** The low [width] bytes of [n], least significant first. *)
Fixpoint le_bytes (width : nat) (n : N) : bytes :=
  match width with
  | O => []
  | S w => byte_of_N (n mod 256) :: le_bytes w (n / 256)
  end.

Definition encode_header (ver count : N) : bytes :=
  le_bytes 4 MAGIC ++ le_bytes 2 ver ++ le_bytes 2 count.

(** One record of the entry table: [kind:u16, nameLen:u16, name,
    payloadOffset:u32, payloadSize:u32]. *)
Definition encode_entry (e : entry) : bytes :=
  let '(type_, name, payload_off, size) := e in
  let name_bytes := list_byte_of_string name in
  le_bytes 2 type_ ++ le_bytes 2 (blen name_bytes) ++ name_bytes
  ++ le_bytes 4 payload_off ++ le_bytes 4 size.

Definition encode_table (es : list entry) : bytes :=
  concat (map encode_entry es).

(** A file to pack: kind, relative name, content. *)
Definition packed_file : Type := N * string * bytes.

(** Payload offsets when the payloads follow each other from [off]. *)
Fixpoint layout (files : list packed_file) (off : N) : list entry :=
  match files with
  | [] => []
  | (kind, name, content) :: rest =>
    (kind, name, off, blen content) :: layout rest (off + blen content)
  end.

Definition table_size (files : list packed_file) : N :=
  foldr (λ f acc, 12 + blen (list_byte_of_string f.1.2) + acc)%N 0%N files.

(** Modelled from the spec: the packer, which is not part of the Python
    sources. It writes the header, the entry table, and then the
    payloads one after the other; every [payloadOffset] is absolute. *)
Definition pack (ver : N) (files : list packed_file) : bytes :=
  encode_header ver (N.of_nat (length files))
  ++ encode_table (layout files (8 + table_size files))
  ++ concat (map (λ f : packed_file, f.2) files).
(** ** Example states *)

Definition example_os : OS :=
  {| tree := {[ ["tmp"] := Dir ]};
     locked := ∅;
     dir_size := 4096;
     tmp_root := ["tmp"];
     WinDLL := λ _, None;
     environ := ∅ |}.

Definition fresh_loader : Loader :=
  {| loaded := []; _temp_dir := None; _vusb_dir := None; last_usb_dir := None;
     _vflash_dir := None; _vflash_info := None; _active_ros := None |}.

Definition example_state : State :=
  {| os := example_os; self := fresh_loader; log := []; calls := [] |}.

(** The example world with one more file in the temporary directory. *)
Definition with_file (name : string) (data : bytes) (s : State) : State :=
  set_tree (<[ ["tmp"; name] := File data ]> (tree (os s))) s.



(** A well-formed container holding two files. *)
Definition two_files : list packed_file :=
  [ (1%N, "gscx_cpu_cell.dll", [x4d; x5a; x90]); (2%N, "data/notes.txt", [x68; x69]) ].

(** The state after a first [initialize_virtual_flash], and its base path. *)
Definition initialized_state : State := (initialize_virtual_flash example_state).2.

Definition flash_base : path := ["tmp"; "gscx_runtime_"; "vflash"].

(** Tampering with the layout from outside the loader. *)
Definition put_node (p : path) (n : node) (s : State) : State :=
  set_tree (<[p := n]> (tree (os s))) s.
Definition del_node (p : path) (s : State) : State :=
  set_tree (delete p (tree (os s))) s.

Definition ros0_emptied : State :=
  put_node (flash_base ++ ["ros0"; "lv0.self"]) (File []) initialized_state.

Definition both_lv0_gone : State :=
  del_node (flash_base ++ ["ros1"; "lv0.self"])
    (put_node (flash_base ++ ["ros0"; "lv0.self"]) (File []) initialized_state).

(** A loader with the CPU, GPU, boot loader and hypervisor modules; the
    boot loader's LV0 entry point returns [lv0]. *)
Definition booting_state (lv0 : bool) : State :=
  set_self (with_loaded
    [ ("gscx_cpu_cell.dll", ∅);
      ("gscx_gpu_rsx.dll", ∅);
      ("gscx_bootloader.dll", {[ "GSCX_LV0_Entry" := Returns lv0 ]});
      ("gscx_hypervisor.dll", {[ "GSCX_LV1_Entry" := Returns true ]}) ])
    example_state.

(** A loader whose recovery module raises from its entry point, in a
    world that holds a firmware image and a stale binding. *)
Definition recovery_throws : State :=
  set_os (λ o, with_environ {[ RECOVERY_PUP := "/old/PS3UPDAT.PUP" ]} o)
    (set_self (with_loaded
       [ ("gscx_recovery.dll",
          {[ "GSCX_RecoveryEntry" := Throws (RuntimeError "access violation") ]}) ])
       (with_file "fw.pup" [x53; x43; x45] example_state)).





(** The example world holding the bundle [data] as [/tmp/b.gscb]. *)
Definition bundle_state (data : bytes) : State := with_file "b.gscb" data example_state.

(** ** Vocabulary of the properties *)

(** The files that [initialize_virtual_flash] seeds under [base]. *)
Definition placeholder_paths (base : path) : list path :=
  [ base ++ ["bootloader"; "version.txt"];
    base ++ ["ros0"; "lv0.self"]; base ++ ["ros0"; "appldr.self"];
    base ++ ["ros1"; "lv0.self"]; base ++ ["ros1"; "appldr.self"];
    base ++ ["registry"; "xRegistry.sys"] ].

Definition placeholders_written (base : path) (t : gmap path node) : Prop :=
  t !! (base ++ ["bootloader"; "version.txt"]) = Some (File version_txt)
  ∧ t !! (base ++ ["ros0"; "lv0.self"]) = Some (File stub)
  ∧ t !! (base ++ ["ros0"; "appldr.self"]) = Some (File stub)
  ∧ t !! (base ++ ["ros1"; "lv0.self"]) = Some (File stub)
  ∧ t !! (base ++ ["ros1"; "appldr.self"]) = Some (File stub)
  ∧ t !! (base ++ ["registry"; "xRegistry.sys"]) = Some (File registry_blob).

(** The part of [initialize_virtual_flash] that follows the choice of
    the base directory. *)
Definition populate (base_dir : path) : M vinfo :=
  os_makedirs base_dir ;;
  forM_ (partitions ++ ros_slots ++ ["bootloader"; "registry"])
        (λ p, os_makedirs (base_dir ++ [p])) ;;
  try_except (write_placeholders base_dir) Exception (λ _, ret tt) ;;
  let info := {| vi_path := base_dir;
                 vi_partitions := partitions;
                 vi_ros_slots := map upper ros_slots |} in
  modify (set_self (with_vflash_info (Some info))) ;;
  _log (Text ("[VFLASH] Virtual flash initialized at " +:+ path_str (vi_path info))) ;;
  ret info.

(** Every entry other than the root's children has a directory as parent. *)
Definition tree_closed (t : gmap path node) : Prop :=
  ∀ p c, is_Some (t !! (p ++ [c])) → p ≠ [] → t !! p = Some Dir.

Definition unlocked_below (s : State) (dir : path) : Prop :=
  ∀ r, dir `prefix_of` r → r ∉ locked (os s).

Definition parent_ok (t : gmap path node) (k : path) : bool :=
  match removelast k with
  | [] => true
  | p => match t !! p with Some Dir => true | _ => false end
  end.

(** A decision procedure for [tree_closed]. *)
Definition closedb (t : gmap path node) : bool :=
  forallb (λ kv : path * node, parent_ok t kv.1) (map_to_list t).

(** ** Staging a bundle *)










(** ** Packed containers *)

(** What the packer can represent: field widths of the format. *)
Definition fits (e : entry) : Prop :=
  (e.1.1.1 < 2 ^ 16 ∧ blen (list_byte_of_string e.1.1.2) < 2 ^ 16
   ∧ e.1.2 < 2 ^ 32 ∧ e.2 < 2 ^ 32)%N
  ∧ utf8_valid (list_byte_of_string e.1.1.2) = true.






(** ** Vocabulary of the statements *)

(** *** Frame relations *)

(** [stable R m]: whatever [m] does and however it ends, the final state
    is [R]-related to the initial one. *)
Definition stable (R : State → State → Prop) {A} (m : M A) : Prop := ∀ s, R s (m s).2.

(** [keeps f]: the component [f] of the state is left as it was. *)
Definition keeps {X} (f : State → X) (s s' : State) : Prop := f s' = f s.

(** [emits P Q]: the log and the trace of native calls were only
    extended, by lines satisfying [P] and calls satisfying [Q]. *)
Definition emits (P : logmsg → Prop) (Q : string * string → Prop) (s s' : State) : Prop :=
  ∃ l c, log s' = log s ++ l ∧ Forall P l ∧ calls s' = calls s ++ c ∧ Forall Q c.


(** *** Bundle headers *)

(** The header of a container: at least 8 bytes, starting with the magic
    number; [header_count] is its entry count. *)
Definition has_header (data : bytes) : Prop :=
  (8 ≤ blen data)%N ∧ le_uint (slice data 0 4) = MAGIC.

Definition header_count (data : bytes) : nat := N.to_nat (le_uint (slice data 6 8)).


(** *** ROS slots *)

(** A slot is valid when its [lv0.self] exists and has non-zero size. *)
Definition slot_valid (s : State) (base : path) (slot : string) : bool :=
  match tree (os s) !! (base ++ [slot; "lv0.self"]) with
  | Some (File d) => (0 <? blen d)%N
  | Some Dir => (0 <? dir_size (os s))%N
  | None => false
  end.

(** The candidate order in the words of the design document. *)
Definition candidate_order (preferred : option string) : list string :=
  match preferred with
  | Some "ros0" => ["ros0"; "ros1"]
  | Some "ros1" => ["ros1"; "ros0"]
  | _ => ["ros0"; "ros1"]
  end.

Definition selected (slot : string) (s : State) : State :=
  add_log (Text ("[ROS] Selected slot: " +:+ upper slot))
    (set_self (with_active_ros (Some slot)) s).

Definition deselected (s : State) : State := set_self (with_active_ros None) s.


(** *** Boot-chain validation *)

Definition file_ok (s : State) (p : path) : bool :=
  match tree (os s) !! p with
  | Some (File d) => (0 <? blen d)%N
  | Some Dir => (0 <? dir_size (os s))%N
  | None => false
  end.

(** A stub that was deleted or emptied, and one that is intact. *)
Definition stub_gone (s : State) (p : path) : Prop :=
  tree (os s) !! p = None ∨ tree (os s) !! p = Some (File []).

Definition stub_intact (s : State) (p : path) : Prop :=
  ∃ d, tree (os s) !! p = Some (File d) ∧ d ≠ [].

Definition verify_log (v0 v1 : bool) : list logmsg :=
  (if v0 then [] else [Text "[SEC] LV0 missing or invalid"])
  ++ (if v1 then [] else [Text "[SEC] Appldr missing or invalid"]).

Definition add_logs (l : list logmsg) (s : State) : State :=
  {| os := os s; self := self s; log := log s ++ l; calls := calls s |}.

Definition example_info : vinfo :=
  {| vi_path := flash_base; vi_partitions := partitions;
     vi_ros_slots := ["ROS0"; "ROS1"] |}.


(** *** The boot sequence *)

(** What the stages before LV1 may log and call: neither the banner of
    the LV1 or LV2 stage nor the LV1 entry point. *)
Definition is_late_banner (m : logmsg) : bool :=
  match m with
  | Text s => String.eqb s "[BOOTLOADER] Iniciando LV1 - Hypervisor..."
              || String.eqb s "[BOOTLOADER] Iniciando LV2 - Game OS..."
  | Tr _ _ => false
  end.

Definition early_line (m : logmsg) : Prop := is_late_banner m = false.

Definition early_call (c : string * string) : Prop := c.2 ≠ "GSCX_LV1_Entry".

(** The frame of the stages up to LV0: they extend the log and the call
    trace by early lines and calls only, and leave the module list alone. *)
Definition early (s s' : State) : Prop :=
  emits early_line early_call s s' ∧ keeps (λ s, loaded (self s)) s s'.

(** A computation that always returns a value (never raises). *)
Definition returns {A} (m : M A) : Prop := ∀ s, ∃ a s', m s = (Ok a, s').

(** The design document describes the boot sequence as a fixed list of
    stages run by a driver that halts at the first failure. [run_stages]
    is that driver, written after the document; it returns the stage that
    failed, if any. [execute_full_boot_sequence] is compared with it. *)
Inductive stage : Type :=
  | HardwareDetect | SysconInit | BootChainValidate | FlashMount | LV0 | LV1 | LV2.

Definition hardware_detect_stage : M bool :=
  hw <- perform_hardware_detection ;; ret (negb (bool_decide (hw = []))).

Definition boot_stages : list (stage * M bool) :=
  [ (HardwareDetect, hardware_detect_stage);
    (SysconInit, initialize_syscon);
    (BootChainValidate, validate_boot_chain);
    (FlashMount, flash_mount_stage);
    (LV0, boot_lv0_stage);
    (LV1, boot_lv1_stage);
    (LV2, boot_lv2_stage) ].

Fixpoint run_stages (stages : list (stage * M bool)) (s : State) : option stage * State :=
  match stages with
  | [] => (None, s)
  | (id, m) :: rest =>
    match m s with
    | (Ok true, s') => run_stages rest s'
    | (_, s') => (Some id, s')
    end
  end.

(** Every stage before [id] passed and [id] is the next one to run. *)
Inductive all_pass : list (stage * M bool) → State → State → Prop :=
  | all_pass_nil s : all_pass [] s s
  | all_pass_cons id m rest s s' s'' :
      m s = (Ok true, s') → all_pass rest s' s'' → all_pass ((id, m) :: rest) s s''.

(** What [execute_full_boot_sequence] logs after the driver stops. *)
Definition report (failed : option stage) (s : State) : State :=
  match failed with
  | None =>
    add_log (Text "[BOOT] PS3 system ready for operation")
      (add_log (Text "[BOOT] Complete boot sequence finished successfully") s)
  | Some HardwareDetect => add_log (Text "[BOOT] Hardware detection failed") s
  | Some SysconInit => add_log (Text "[BOOT] SYSCON initialization failed") s
  | Some BootChainValidate => add_log (Text "[BOOT] Boot chain validation failed") s
  | Some FlashMount => s
  | Some LV0 => add_log (Text "[BOOT] LV0 stage failed") s
  | Some LV1 => add_log (Text "[BOOT] LV1 stage failed") s
  | Some LV2 => add_log (Text "[BOOT] LV2 stage failed") s
  end.

Definition boot_start (s : State) : State :=
  add_log (Text "[BOOT] Starting complete PS3 boot sequence...") s.

Definition early_stages : list (stage * M bool) := take 4 boot_stages.

Definition lv1_banner : logmsg := Text "[BOOTLOADER] Iniciando LV1 - Hypervisor...".

Definition lv2_banner : logmsg := Text "[BOOTLOADER] Iniciando LV2 - Game OS...".

(** ** Vocabulary of the further properties *)

(** The calls of the entry point [sym] over a list of modules: one for
    each module that exports it, in the order of the list. *)
Definition entry_calls (sym : string) (l : list (string * Lib)) : list (string * string) :=
  omap (λ m : string * Lib,
          match m.2 !! sym with Some _ => Some (m.1, sym) | None => None end) l.

Definition unloaded_line (m : string * Lib) : logmsg :=
  Tr "modules.unloaded" [("name", m.1)].

(** [load_default_modules]; [cwd] is what [os.getcwd()] returns. *)
Definition load_default_modules (cwd : path) : M unit :=
  let candidates := [cwd ++ ["build"]; cwd ++ ["cpp"; "build"]; cwd ++ ["bin"]] in
  found_dirs <- gets (λ s, filter (λ d, is_dir (tree (os s)) d = true) candidates) ;;
  match found_dirs with
  | [] => _log (Tr "modules.build_dirs_missing" [])
  | _ => _load_from_dirs found_dirs
  end.

Definition get_last_usb_dir : M (option path) := gets (λ s, last_usb_dir (self s)).

(** The file names [_load_from_dirs] looks for, in its order. *)
Definition dll_names : list string := map (λ m, m +:+ ".dll") MODULES.

(** What the library loader makes of the file [dll] of directory [d]:
    the library, when the file is there and the loader accepts it. *)
Definition module_at (o : OS) (d : path) (dll : string) : option (string * Lib) :=
  match lookup_node (tree o) (d ++ [dll]) with
  | Some (File data) =>
    match WinDLL o data with Some lib => Some (dll, lib) | None => None end
  | _ => None
  end.

(** The module files of [dirs] that the library loader accepts:
    directory by directory, each in the order of [MODULES]. *)
Definition modules_in (o : OS) (dirs : list path) : list (string * Lib) :=
  d ← dirs; omap (module_at o d) dll_names.

(** No initialisation entry point of [l] raises. *)
Definition init_returns (l : list (string * Lib)) : Prop :=
  ∀ m e, m ∈ l → m.2 !! ENTRY_INIT ≠ Some (Throws e).

(** A decision procedure for [init_returns]. *)
Definition init_returnsb (l : list (string * Lib)) : bool :=
  forallb (λ m : string * Lib,
             match m.2 !! ENTRY_INIT with Some (Throws _) => false | _ => true end) l.

(** A world with a build directory holding two module files; the
    library loader maps the first to a library whose initialisation
    returns [False], the second to one without entry points, and
    rejects anything else. *)
Definition build_os : OS :=
  {| tree := {[ ["app"] := Dir; ["app"; "build"] := Dir;
                ["app"; "build"; "gscx_cpu_cell.dll"] := File [x01];
                ["app"; "build"; "gscx_recovery.dll"] := File [x02];
                ["app"; "build"; "gscx_syscon.dll"] := File [x03];
                ["tmp"] := Dir ]};
     locked := ∅;
     dir_size := 4096;
     tmp_root := ["tmp"];
     WinDLL := λ data,
       match data with
       | [x01] => Some {[ ENTRY_INIT := Returns false ]}
       | [x02] => Some ∅
       | _ => None
       end;
     environ := ∅ |}.

Definition build_state : State :=
  {| os := build_os; self := fresh_loader; log := []; calls := [] |}.

(** The same world with a module whose initialisation raises [e]. *)
Definition faulty_state (e : exn) : State :=
  set_os (λ o, {| tree := tree o; locked := locked o; dir_size := dir_size o;
                  tmp_root := tmp_root o;
                  WinDLL := λ data,
                    match data with
                    | [x03] => Some {[ ENTRY_INIT := Throws e ]}
                    | _ => WinDLL o data
                    end;
                  environ := environ o |})
    build_state.

(** The build directories [load_default_modules] finds under [cwd]. *)
Definition build_dirs (o : OS) (cwd : path) : list path :=
  filter (λ d, is_dir (tree o) d = true)
    [cwd ++ ["build"]; cwd ++ ["cpp"; "build"]; cwd ++ ["bin"]].

(** A container whose only entry has the one-byte name [0xff], which is
    not UTF-8. *)
Definition bad_name_container : bytes :=
  encode_header 1 1 ++ [x01; x00; x01; x00; xff] ++ replicate 8 x00.


(** The name under which [boot_recovery] stages the firmware image. *)
Definition staged_pup (target_dir : path) : path := target_dir ++ ["PS3UPDAT.PUP"].

(** The world of [recovery_throws] after a bundle was staged in
    [/tmp/stage]. *)
Definition staging_recovery : State :=
  set_self (with_temp_dir (Some ["tmp"; "stage"]))
    (put_node ["tmp"; "stage"; "gscx_recovery.dll"] (File [x02])
       (put_node ["tmp"; "stage"] Dir recovery_throws)).

(** The verdict of a stage that hands over to the entry point [sym] of
    the first registered module whose name starts with [prefix]: what the
    entry point returns; [False] when it raises or is not exported;
    [dflt] when there is no such module. *)
Definition entry_verdict (prefix sym : string) (dflt : bool) (l : list (string * Lib)) : bool :=
  match find_loaded prefix l with
  | Some (_, lib) => match lib !! sym with Some (Returns b) => b | _ => false end
  | None => dflt
  end.

(** A loader whose boot loader raises from its LV0 entry point, whose
    hypervisor lacks its entry point, and which has no SYSCON module. *)
Definition crashing_state : State :=
  set_self (with_loaded
    [ ("gscx_cpu_cell.dll", ∅);
      ("gscx_bootloader.dll", {[ "GSCX_LV0_Entry" := Throws (RuntimeError "access violation") ]});
      ("gscx_hypervisor.dll", ∅) ])
    example_state.

(** The directories of the virtual flash layout, and the dictionary
    [initialize_virtual_flash] returns for the base path [base]. *)
Definition layout_dirs : list string := partitions ++ ros_slots ++ ["bootloader"; "registry"].

Definition flash_info (base : path) : vinfo :=
  {| vi_path := base; vi_partitions := partitions; vi_ros_slots := map upper ros_slots |}.

(** A loader that has neither staged a bundle nor laid out a flash. *)
Definition no_flash (s : State) : Prop :=
  _vflash_dir (self s) = None ∧ _vflash_info (self s) = None ∧ _temp_dir (self s) = None.

(** An intact flash layout at [base], recorded by the loader. *)
Definition flash_ready (base : path) (s : State) : Prop :=
  _vflash_dir (self s) = Some base
  ∧ _vflash_info (self s) = Some (flash_info base)
  ∧ base ≠ []
  ∧ tree_closed (tree (os s))
  ∧ placeholders_written base (tree (os s))
  ∧ ∀ p, p ∈ layout_dirs → tree (os s) !! (base ++ [p]) = Some Dir.

(** What the boot sequence needs of the virtual flash: none laid out yet
    in a world with a temporary directory, or an intact one. *)
Definition flash_bootable (s : State) : Prop :=
  (no_flash s ∧ tree_closed (tree (os s)) ∧ is_dir (tree (os s)) (tmp_root (os s)) = true)
  ∨ ∃ base, flash_ready base s.

(** The verdict of the boot sequence as far as it depends on the
    registered modules. *)
Definition modules_verdict (l : list (string * Lib)) : bool :=
  entry_verdict "gscx_syscon" "GSCX_SYSCON_Initialize" true l
  && entry_verdict "gscx_bootloader" "GSCX_LV0_Entry" false l
  && entry_verdict "gscx_hypervisor" "GSCX_LV1_Entry" false l
  && existsb (λ m : string * Lib, startswith m.1 "gscx_cpu_cell") l
  && existsb (λ m : string * Lib, startswith m.1 "gscx_gpu_rsx") l.

(** [closes]: a well-formed file tree stays well-formed. *)
Definition closes (s s' : State) : Prop :=
  tree_closed (tree (os s)) → tree_closed (tree (os s')).

(** [only_at base]: the file tree changed at most on the way to [base]
    and below it. *)
Definition only_at (base : path) (s s' : State) : Prop :=
  ∀ q, ¬ base `prefix_of` q → q = [] ∨ ¬ q `prefix_of` base →
       tree (os s') !! q = tree (os s) !! q.



(** The example world without its temporary directory. *)
Definition no_tmp_state : State := set_tree ∅ (booting_state true).



(** * Properties *)

(** ** Reasoning about computations

    [stable R m]: whatever [m] does and however it ends, the final state
    is [R]-related to the initial one. For a preorder [R] this is closed
    under the control structures of the monad, so a frame property of a
    method follows from the frame properties of its primitive steps. *)

Ltac munfold :=
  unfold bind, ret, raise, lift, gets, modify, try_except, try_finally, _log,
    Exception in *.

(** The same, by reduction only: method calls stay folded. *)
Ltac mcbv :=
  cbv beta iota zeta delta [bind ret raise lift gets modify try_except try_finally _log
                       Exception negb fst snd].

Section stable.
Context (R : State → State → Prop) `{!PreOrder R}.

Lemma stable_ret {A} (a : A) : stable R (ret a).
Proof. intros s. simpl. reflexivity. Qed.

Lemma stable_raise {A} (e : exn) : stable R (@raise A e).
Proof. intros s. simpl. reflexivity. Qed.

Lemma stable_lift {A} (r : res A) : stable R (lift r).
Proof. intros s. simpl. reflexivity. Qed.

Lemma stable_gets {A} (f : State → A) : stable R (gets f).
Proof. intros s. simpl. reflexivity. Qed.

Lemma stable_modify (f : State → State) : (∀ s, R s (f s)) → stable R (modify f).
Proof. intros H s. simpl. apply H. Qed.

Lemma stable_bind {A B} (m : M A) (k : A → M B) :
  stable R m → (∀ a, stable R (k a)) → stable R (bind m k).
Proof.
  intros Hm Hk s. unfold bind. specialize (Hm s).
  destruct (m s) as [[a | e] s']; simpl in *; [| done].
  etrans; [exact Hm | apply Hk].
Qed.

Lemma stable_try_except {A} (m : M A) (c : exn → bool) (h : exn → M A) :
  stable R m → (∀ e, stable R (h e)) → stable R (try_except m c h).
Proof.
  intros Hm Hh s. unfold try_except. specialize (Hm s).
  destruct (m s) as [[a | e] s']; simpl in *; [done |].
  destruct (c e); simpl; [| done].
  etrans; [exact Hm | apply Hh].
Qed.

Lemma stable_try_finally {A} (m : M A) (fin : M unit) :
  stable R m → stable R fin → stable R (try_finally m fin).
Proof.
  intros Hm Hf s. unfold try_finally. specialize (Hm s).
  destruct (m s) as [r s']. specialize (Hf s').
  destruct (fin s') as [[[] | e] s'']; simpl in *; etrans; eauto.
Qed.

Lemma stable_forM_ {A} (l : list A) (f : A → M unit) :
  (∀ x, stable R (f x)) → stable R (forM_ l f).
Proof.
  intros Hf. induction l as [| x l IH]; simpl.
  - apply stable_ret.
  - apply stable_bind; [apply Hf | intros _; exact IH].
Qed.
End stable.

(** One step of a frame proof: peel the outermost control structure or
    case split on what the code branches on. *)
Ltac stable_step :=
  match goal with
  | |- stable _ (bind _ _) => apply stable_bind; [typeclasses eauto | | intros ?]
  | |- stable _ (try_except _ _ _) =>
      apply stable_try_except; [typeclasses eauto | | intros ?]
  | |- stable _ (try_finally _ _) => apply stable_try_finally; [typeclasses eauto | |]
  | |- stable _ (forM_ _ _) => apply stable_forM_; [typeclasses eauto | intros ?]
  | |- stable _ (ret _) => apply stable_ret; typeclasses eauto
  | |- stable _ (raise _) => apply stable_raise; typeclasses eauto
  | |- stable _ (lift _) => apply stable_lift; typeclasses eauto
  | |- stable _ (gets _) => apply stable_gets; typeclasses eauto
  | |- stable _ (match ?x with _ => _ end) => destruct x
  | |- stable _ (let '(_, _) := ?x in _) => destruct x
  end.

(** *** Two families of frame relations *)


Global Instance keeps_preorder {X} (f : State → X) : PreOrder (keeps f).
Proof.
  split.
  - intros s. reflexivity.
  - intros s1 s2 s3 H12 H23. unfold keeps in *. congruence.
Qed.


Global Instance emits_preorder P Q : PreOrder (emits P Q).
Proof.
  split.
  - intros s. exists [], []. by rewrite !app_nil_r.
  - intros s1 s2 s3 (l & c & Hl & HP & Hc & HQ) (l' & c' & Hl' & HP' & Hc' & HQ').
    exists (l ++ l'), (c ++ c'). rewrite Hl', Hl, Hc', Hc, !app_assoc.
    split_and!; try done; by apply Forall_app.
Qed.

Lemma emits_log P Q (m : logmsg) : P m → stable (emits P Q) (_log m).
Proof.
  intros Hm s. exists [m], []. simpl. rewrite app_nil_r.
  split_and!; try done. by constructor.
Qed.

Lemma emits_call P Q (dll sym : string) (f : native) :
  Q (dll, sym) → stable (emits P Q) (call dll sym f).
Proof.
  intros Hq s. unfold call. munfold. simpl.
  assert (emits P Q s (add_call (dll, sym) s)).
  { exists [], [(dll, sym)]. simpl. rewrite app_nil_r.
    split_and!; try done. by constructor. }
  by destruct f.
Qed.

(** A step that touches neither the log nor the call trace. *)
Lemma emits_silent P Q {A} (m : M A) :
  (∀ s, log (m s).2 = log s ∧ calls (m s).2 = calls s) → stable (emits P Q) m.
Proof.
  intros H s. destruct (H s) as [Hl Hc]. exists [], []. rewrite Hl, Hc, !app_nil_r. done.
Qed.

(** The operating-system calls and attribute updates, unfolded. *)
Ltac unfold_prims :=
  unfold os_path_exists, os_path_isdir, os_path_isfile, os_path_getsize, os_listdir,
    os_makedirs, open_write, open_read, os_remove, shutil_rmtree, shutil_copy2,
    tempfile_mkdtemp, setenv, delenv, in_environ, load_library, getattr, on_tree,
    set_tree in *;
  munfold.

(** Closes the frame goal of a primitive step by running it. *)
Ltac prim_frame :=
  let s := fresh "s" in
  intros s; unfold_prims; simpl;
  repeat (case_match; simpl in *; simplify_eq); simpl; try done.

Ltac silent := apply emits_silent; prim_frame.

Create HintDb frames.

(** Frame goals of the [keeps] family. *)
Ltac keeps_leaf :=
  solve [ let s := fresh "s" in
          intros s; unfold keeps, call; unfold_prims; simpl;
          repeat (case_match; simpl in *; simplify_eq); simpl; done
        | eauto with frames ].

Ltac keeps_auto := repeat stable_step; try keeps_leaf.


(** ** Bundle extraction: malformed headers *)




(** ** Bundle extraction: truncated tables and payload ranges *)










(** ** File-system lemmas *)

Lemma bind_Ok_inv {A B} (m : M A) (k : A → M B) (s s' : State) (b : B) :
  bind m k s = (Ok b, s') → ∃ a s1, m s = (Ok a, s1) ∧ k a s1 = (Ok b, s').
Proof.
  unfold bind. destruct (m s) as [[a | e] s1]; [| done]. intros H. by exists a, s1.
Qed.

Lemma lookup_node_ne_nil (t : gmap path node) (p : path) :
  p ≠ [] → lookup_node t p = t !! p.
Proof. by destruct p. Qed.

(** [makedirs] only ever adds directories, on the way to its target. *)
Lemma makedirs_go_lookup (rest : list string) :
  ∀ t cur r t', makedirs_go t cur rest = (r, t') →
    ∀ q, t' !! q = t !! q
         ∨ (t !! q = None ∧ t' !! q = Some Dir
            ∧ ∃ k, (0 < k ≤ length rest)%nat ∧ q = cur ++ take k rest).
Proof.
  induction rest as [| c rest IH]; intros t cur r t' H q; simpl in H.
  - injection H as _ <-. by left.
  - assert (Hshift : ∀ k, (cur ++ [c]) ++ take k rest = cur ++ take (S k) (c :: rest)).
    { intros k. by rewrite <- app_assoc. }
    destruct (t !! (cur ++ [c])) as [[d |] |] eqn:Hc.
    + injection H as _ <-. by left.
    + destruct (IH _ _ _ _ H q) as [Hq | (Hn & Hd & k & Hk & ->)]; [by left |].
      right. split_and!; try done. exists (S k). rewrite Hshift. simpl. split; [lia | done].
    + destruct (IH _ _ _ _ H q) as [Hq | (Hn & Hd & k & Hk & ->)].
      * destruct (decide (q = cur ++ [c])) as [-> | Hne].
        -- right. rewrite Hq, lookup_insert_eq. split_and!; try done.
           exists 1%nat. simpl. rewrite take_0. split; [lia | done].
        -- left. by rewrite Hq, lookup_insert_ne.
      * right. split_and!; try done.
        -- destruct (decide (cur ++ [c] = (cur ++ [c]) ++ take k rest)) as [Heq | Hne].
           ++ rewrite <- Heq in Hn. by rewrite lookup_insert_eq in Hn.
           ++ by rewrite lookup_insert_ne in Hn.
        -- exists (S k). rewrite Hshift. simpl. split; [lia | done].
Qed.

Lemma makedirs_go_preserves (rest : list string) (t : gmap path node) (cur : path)
    (r : res unit) (t' : gmap path node) (q : path) (n : node) :
  makedirs_go t cur rest = (r, t') → t !! q = Some n → t' !! q = Some n.
Proof.
  intros H Hq. destruct (makedirs_go_lookup rest t cur r t' H q) as [-> | (Hn & _)]; congruence.
Qed.

Lemma makedirs_go_long (rest : list string) (t : gmap path node) (cur : path)
    (r : res unit) (t' : gmap path node) (q : path) :
  makedirs_go t cur rest = (r, t') →
  (length cur + length rest < length q)%nat → t' !! q = t !! q.
Proof.
  intros H Hlen.
  destruct (makedirs_go_lookup rest t cur r t' H q) as [-> | (_ & _ & k & Hk & ->)]; [done |].
  rewrite length_app, length_take in Hlen. lia.
Qed.

(** After a successful [makedirs] every step of the way is a directory. *)
Lemma makedirs_go_ok (rest : list string) :
  ∀ t cur t', makedirs_go t cur rest = (Ok tt, t') →
    ∀ k, (0 < k ≤ length rest)%nat → t' !! (cur ++ take k rest) = Some Dir.
Proof.
  induction rest as [| c rest IH]; intros t cur t' H k Hk; simpl in *; [lia |].
  destruct k as [| k]; [lia |]. simpl.
  assert (Hstep : ∀ t0, makedirs_go t0 (cur ++ [c]) rest = (Ok tt, t') →
                        t0 !! (cur ++ [c]) = Some Dir →
                        t' !! (cur ++ c :: take k rest) = Some Dir).
  { intros t0 H0 Hc. destruct k as [| k].
    - rewrite take_0. eapply makedirs_go_preserves; eauto.
    - replace (cur ++ c :: take (S k) rest) with ((cur ++ [c]) ++ take (S k) rest)
        by (by rewrite <- app_assoc).
      eapply IH; [exact H0 | lia]. }
  destruct (t !! (cur ++ [c])) as [[d |] |] eqn:Hc.
  - by destruct rest.
  - by apply (Hstep t).
  - apply (Hstep _ H). by rewrite lookup_insert_eq.
Qed.

(** [makedirs] succeeds when no regular file is in the way. *)
Lemma makedirs_go_succeeds (rest : list string) :
  ∀ t cur,
    (∀ k d, (0 < k ≤ length rest)%nat → t !! (cur ++ take k rest) ≠ Some (File d)) →
    ∃ t', makedirs_go t cur rest = (Ok tt, t').
Proof.
  induction rest as [| c rest IH]; intros t cur Hno; simpl; [by eexists |].
  assert (Hshift : ∀ k, (cur ++ [c]) ++ take k rest = cur ++ take (S k) (c :: rest)).
  { intros k. by rewrite <- app_assoc. }
  destruct (t !! (cur ++ [c])) as [[d |] |] eqn:Hc.
  - exfalso. apply (Hno 1%nat d); [simpl; lia |]. simpl. by rewrite take_0.
  - apply IH. intros k d Hk. rewrite Hshift. apply Hno. simpl. lia.
  - apply IH. intros k d Hk.
    destruct (decide (cur ++ [c] = (cur ++ [c]) ++ take k rest)) as [Heq | Hne].
    + rewrite <- Heq, lookup_insert_eq. done.
    + rewrite lookup_insert_ne by done. rewrite Hshift. apply Hno. simpl. lia.
Qed.

Lemma makedirs_ok_dir (t t' : gmap path node) (p : path) :
  makedirs t p = (Ok tt, t') → p ≠ [] → t' !! p = Some Dir.
Proof.
  intros H Hp. unfold makedirs in H.
  pose proof (makedirs_go_ok p t [] t' H (length p)) as Hk.
  rewrite firstn_all in Hk. apply Hk. destruct p; simpl; [done | lia].
Qed.

Lemma write_file_ok (t : gmap path node) (p : path) (c : string) (data : bytes) :
  lookup_node t p = Some Dir → t !! (p ++ [c]) ≠ Some Dir →
  write_file t (p ++ [c]) data = (Ok tt, <[p ++ [c] := File data]> t).
Proof.
  intros Hp Hc. unfold write_file.
  destruct (p ++ [c]) as [| x l] eqn:E; [by destruct p |]. rewrite <- E.
  rewrite <- E in Hc. rewrite removelast_last, Hp.
  by destruct (t !! (p ++ [c])) as [[d |] |].
Qed.

Lemma write_file_inv (t t' : gmap path node) (p : path) (data : bytes) (r : res unit) :
  write_file t p data = (r, t') →
  (t' = t ∧ r ≠ Ok tt) ∨ (r = Ok tt ∧ t' = <[p := File data]> t).
Proof.
  unfold write_file. intros H.
  repeat (case_match; simplify_eq); try (by left); by right.
Qed.

Lemma os_makedirs_inv (p : path) (s s' : State) (r : res unit) :
  os_makedirs p s = (r, s') →
  ∃ t', makedirs (tree (os s)) p = (r, t') ∧ s' = set_tree t' s.
Proof.
  unfold os_makedirs, on_tree. destruct (makedirs (tree (os s)) p) as [r' t'].
  intros [= <- <-]. by exists t'.
Qed.


Lemma drop_prefix_Some (p q r : path) : drop_prefix p q = Some r ↔ q = p ++ r.
Proof.
  revert q. induction p as [| a p IH]; intros q; simpl.
  - split; [by intros [= ->] | by intros ->].
  - destruct q as [| b q]; [split; done |].
    destruct (decide (a = b)) as [-> | Hne].
    + rewrite IH. split; [by intros -> | by intros [= ->]].
    + split; [done | intros [= -> _]; done].
Qed.

Lemma elem_of_children (t : gmap path node) (p : path) (n : string) :
  n ∈ children t p ↔ is_Some (t !! (p ++ [n])).
Proof.
  unfold children. rewrite list_elem_of_omap. split.
  - intros ([q x] & Hin & Hc). apply elem_of_map_to_list in Hin.
    unfold child_name in Hc. simpl in Hc.
    destruct (drop_prefix p q) as [[| n' [| ? ?]] |] eqn:E; simplify_eq.
    apply drop_prefix_Some in E as ->. by exists x.
  - intros [x Hx]. exists (p ++ [n], x). split; [by apply elem_of_map_to_list |].
    unfold child_name. simpl.
    by rewrite (proj2 (drop_prefix_Some p (p ++ [n]) [n]) eq_refl).
Qed.

Lemma closed_ancestor (t : gmap path node) (p r : path) :
  tree_closed t → is_Some (t !! (p ++ r)) → r ≠ [] → p ≠ [] → t !! p = Some Dir.
Proof.
  intros Hc. induction r as [| c r IH] using List.rev_ind.
  { intros _ Hr. by destruct Hr. }
  intros Hs _ Hp. rewrite app_assoc in Hs.
  assert (Hd : t !! (p ++ r) = Some Dir) by (apply (Hc _ c Hs); by destruct p).
  destruct r as [| c' r'].
  - by rewrite app_nil_r in Hd.
  - apply IH; [by rewrite Hd | done | done].
Qed.

(** What [rmtree] leaves of an entry. *)
Lemma rmtree_lookup (t : gmap path node) (L : gset path) (p q : path) :
  rmtree t L p !! q =
    if is_dir t p
    then if bool_decide (p `prefix_of` q) && negb (pinned t L q) then None else t !! q
    else t !! q.
Proof.
  unfold rmtree. destruct (is_dir t p); [| done].
  rewrite map_lookup_filter. destruct (t !! q) as [x |] eqn:Hq; simpl.
  - destruct (bool_decide_reflect (p `prefix_of` q)) as [Hp | Hp]; simpl.
    + destruct (pinned t L q) eqn:Hpin; simpl.
      * rewrite option_guard_True; [done | by right].
      * rewrite option_guard_False; [done |]. intros [? | ?]; [done | congruence].
    + rewrite option_guard_True; [done | by left].
  - by repeat case_match.
Qed.

Lemma not_pinned (t : gmap path node) (L : gset path) (q : path) :
  (∀ r, q `prefix_of` r → r ∉ L) → pinned t L q = false.
Proof.
  intros H. unfold pinned. apply bool_decide_eq_false_2.
  rewrite Exists_exists. intros (r & Hr & _ & Hp).
  apply elem_of_elements in Hr. by apply (H r).
Qed.







Lemma closedb_closed (t : gmap path node) : closedb t = true → tree_closed t.
Proof.
  unfold closedb. rewrite forallb_forall. intros H p c [x Hx] Hp.
  specialize (H (p ++ [c], x)). simpl in H. unfold parent_ok in H.
  rewrite removelast_last in H.
  assert (Hin : In (p ++ [c], x) (map_to_list t)).
  { apply list_elem_of_In. by apply elem_of_map_to_list. }
  specialize (H Hin). destruct p; [done |].
  by destruct (t !! (s :: p)) as [[] |].
Qed.

(** ** ROS slot selection *)

Lemma lookup_node_app_cons (t : gmap path node) (p : path) (c : string) (r : path) :
  lookup_node t (p ++ c :: r) = t !! (p ++ c :: r).
Proof. unfold lookup_node. by destruct p. Qed.


Lemma present_nonempty_eq (p : path) (c : string) (r : path) (s : State) :
  present_nonempty (p ++ c :: r) s =
    (Ok match tree (os s) !! (p ++ c :: r) with
        | Some (File d) => (0 <? blen d)%N
        | Some Dir => (0 <? dir_size (os s))%N
        | None => false
        end, s).
Proof.
  unfold present_nonempty, os_path_exists, os_path_getsize. munfold.
  simpl. rewrite lookup_node_app_cons.
  destruct (tree (os s) !! (p ++ c :: r)) as [[d |] |] eqn:E; simpl;
    rewrite ?lookup_node_app_cons, ?E; done.
Qed.

Lemma _valid_eq (base : path) (slot : string) (s : State) :
  _valid base slot s = (Ok (slot_valid s base slot), s).
Proof. apply (present_nonempty_eq base slot ["lv0.self"]). Qed.

Lemma ros_candidates_order (preferred : option string) :
  ros_candidates preferred = candidate_order preferred.
Proof.
  destruct preferred as [p |]; [| done].
  unfold ros_candidates.
  destruct (decide (p = "ros0")) as [-> | H0]; [by vm_compute |].
  destruct (decide (p = "ros1")) as [-> | H1]; [by vm_compute |].
  rewrite bool_decide_eq_false_2.
  - unfold candidate_order.
    repeat (match goal with
            | |- context [match ?x with _ => _ end] => destruct x; try done
            end).
  - rewrite !elem_of_cons, elem_of_nil. intros [? | [? | []]]; done.
Qed.


Lemma select_first_eq (base : path) (cands : list string) (s : State) :
  select_first base cands s =
    match List.find (slot_valid s base) cands with
    | Some slot => (Ok (Some slot), selected slot s)
    | None => (Ok None, deselected s)
    end.
Proof.
  induction cands as [| c cands IH]; simpl; [done |].
  unfold bind at 1. rewrite _valid_eq.
  destruct (slot_valid s base c); [done | apply IH].
Qed.

Lemma select_ros_slot_eq (preferred : option string) (s : State) :
  select_ros_slot preferred s =
    match get_vflash_info s with
    | (Ok info, s1) =>
      match List.find (slot_valid s1 (vi_path info)) (candidate_order preferred) with
      | Some slot => (Ok (Some slot), selected slot s1)
      | None => (Ok None, deselected s1)
      end
    | (Raise e, s1) =>
      (Ok None, deselected (add_log (Text ("[ROS] Error selecting slot: " +:+ exn_str e)) s1))
    end.
Proof.
  unfold select_ros_slot, try_except, bind at 1.
  destruct (get_vflash_info s) as [[info | e] s1]; [| done].
  rewrite select_first_eq, ros_candidates_order.
  by destruct (List.find _ _).
Qed.

(** C4: [select_ros_slot] tries the candidates in the order
    [preferred, other] when one of the two slots is preferred and
    [ros0, ros1] otherwise; a slot is valid exactly when its [lv0.self]
    exists with non-zero size; the first valid candidate becomes the
    active slot and is returned; with no valid candidate the active slot
    is cleared and [None] is returned. *)
Theorem select_ros_slot_first_valid (preferred : option string) (s : State) :
  ros_candidates preferred = candidate_order preferred ∧
  (∀ s' base slot, _valid base slot s' = (Ok (slot_valid s' base slot), s')) ∧
  match get_vflash_info s with
  | (Ok info, s1) =>
    match List.find (slot_valid s1 (vi_path info)) (candidate_order preferred) with
    | Some slot =>
      select_ros_slot preferred s = (Ok (Some slot), selected slot s1) ∧
      _active_ros (self (selected slot s1)) = Some slot
    | None =>
      select_ros_slot preferred s = (Ok None, deselected s1) ∧
      _active_ros (self (deselected s1)) = None
    end
  | (Raise e, s1) =>
    ∃ s2, select_ros_slot preferred s = (Ok None, s2) ∧ _active_ros (self s2) = None
  end.
Proof.
  split; [apply ros_candidates_order |].
  split; [intros; apply _valid_eq |].
  rewrite select_ros_slot_eq.
  destruct (get_vflash_info s) as [[info | e] s1].
  - by destruct (List.find _ _).
  - by eexists.
Qed.

(** ** Boot chain validation *)


Lemma stub_gone_not_ok (s : State) (p : path) : stub_gone s p → file_ok s p = false.
Proof. unfold file_ok. by intros [-> | ->]. Qed.

Lemma stub_intact_ok (s : State) (p : path) : stub_intact s p → file_ok s p = true.
Proof. unfold file_ok. intros (d & -> & Hd). by destruct d. Qed.

Lemma get_vflash_info_cached (s : State) (info : vinfo) :
  _vflash_info (self s) = Some info → get_vflash_info s = (Ok info, s).
Proof. intros H. unfold get_vflash_info. munfold. by rewrite H. Qed.


Lemma present_nonempty_file_ok (p : path) (c : string) (r : path) (s : State) :
  present_nonempty (p ++ c :: r) s = (Ok (file_ok s (p ++ c :: r)), s).
Proof. apply present_nonempty_eq. Qed.

(** With a recorded layout and an active slot, verification passes
    exactly when both stubs of that slot are present and non-empty. *)
Lemma _verify_lv0_and_appldr_eq (s : State) (info : vinfo) (slot : string) :
  _vflash_info (self s) = Some info →
  _active_ros (self s) = Some slot →
  let v0 := file_ok s (vi_path info ++ [slot; "lv0.self"]) in
  let v1 := file_ok s (vi_path info ++ [slot; "appldr.self"]) in
  _verify_lv0_and_appldr s = (Ok (v0 && v1), add_logs (verify_log v0 v1) s).
Proof.
  intros Hi Ha v0 v1.
  unfold _verify_lv0_and_appldr. munfold.
  rewrite (get_vflash_info_cached s info Hi). simpl. rewrite Ha.
  rewrite present_nonempty_file_ok. fold v0.
  destruct v0; simpl; rewrite present_nonempty_file_ok.
  - fold v1. destruct v1; simpl; unfold add_logs, add_log; simpl.
    + rewrite app_nil_r. by destruct s.
    + done.
  - change (file_ok _ _) with v1.
    destruct v1; simpl; unfold add_logs, add_log; simpl; [done |].
    by rewrite <- app_assoc.
Qed.

Lemma validate_boot_chain_falls_back (s : State) (info : vinfo) :
  _vflash_info (self s) = Some info →
  stub_gone s (vi_path info ++ ["ros0"; "lv0.self"]) →
  stub_intact s (vi_path info ++ ["ros1"; "lv0.self"]) →
  stub_intact s (vi_path info ++ ["ros1"; "appldr.self"]) →
  ∃ s', validate_boot_chain s = (Ok true, s')
        ∧ _active_ros (self s') = Some "ros1" ∧ os s' = os s.
Proof.
  intros Hi H0 H1 H2.
  apply stub_gone_not_ok in H0. apply stub_intact_ok in H1, H2.
  unfold validate_boot_chain. munfold. simpl.
  rewrite select_ros_slot_eq.
  erewrite get_vflash_info_cached by (simpl; exact Hi).
  unfold file_ok in H0, H1, H2.
  simpl. unfold slot_valid. simpl. rewrite H0, H1. simpl.
  erewrite (_verify_lv0_and_appldr_eq _ info "ros1")
    by (simpl; first [exact Hi | reflexivity]).
  unfold file_ok. simpl. rewrite H1, H2. simpl.
  eexists. split; [reflexivity |]. simpl. done.
Qed.

Lemma validate_boot_chain_no_slot (s : State) (info : vinfo) :
  _vflash_info (self s) = Some info →
  slot_valid s (vi_path info) "ros0" = false →
  slot_valid s (vi_path info) "ros1" = false →
  ∃ s', validate_boot_chain s = (Ok false, s')
        ∧ _active_ros (self s') = None ∧ os s' = os s.
Proof.
  intros Hi H0 H1.
  unfold validate_boot_chain. munfold. simpl.
  rewrite select_ros_slot_eq.
  erewrite get_vflash_info_cached by (simpl; exact Hi).
  unfold slot_valid in *.
  simpl. rewrite H0, H1. simpl.
  eexists. split; [reflexivity |]. simpl. done.
Qed.

(** C3: on an initialized layout whose [ros0/lv0.self] was deleted or
    emptied while [ros1/lv0.self] and [ros1/appldr.self] are intact,
    [validate_boot_chain] returns [True] with [ros1] as the active slot;
    when neither slot is valid it returns [False] and the active slot is
    [None]. *)
Theorem validate_boot_chain_slot_fallback (s : State) (info : vinfo) :
  _vflash_info (self s) = Some info →
  (stub_gone s (vi_path info ++ ["ros0"; "lv0.self"]) →
   stub_intact s (vi_path info ++ ["ros1"; "lv0.self"]) →
   stub_intact s (vi_path info ++ ["ros1"; "appldr.self"]) →
   ∃ s', validate_boot_chain s = (Ok true, s')
         ∧ _active_ros (self s') = Some "ros1")
  ∧
  (slot_valid s (vi_path info) "ros0" = false →
   slot_valid s (vi_path info) "ros1" = false →
   ∃ s', validate_boot_chain s = (Ok false, s')
         ∧ _active_ros (self s') = None).
Proof.
  intros Hi. split.
  - intros H0 H1 H2.
    destruct (validate_boot_chain_falls_back s info Hi H0 H1 H2) as (s' & ? & ? & _).
    by exists s'.
  - intros H0 H1.
    destruct (validate_boot_chain_no_slot s info Hi H0 H1) as (s' & ? & ? & _).
    by exists s'.
Qed.


Lemma validate_boot_chain_slot_fallback_witness :
  (∃ s', validate_boot_chain ros0_emptied = (Ok true, s')
         ∧ _active_ros (self s') = Some "ros1")
  ∧ (∃ s', validate_boot_chain both_lv0_gone = (Ok false, s')
           ∧ _active_ros (self s') = None).
Proof.
  split.
  - apply (validate_boot_chain_slot_fallback ros0_emptied example_info).
    + reflexivity.
    + right. reflexivity.
    + exists stub. split; [reflexivity | discriminate].
    + exists stub. split; [reflexivity | discriminate].
  - apply (validate_boot_chain_slot_fallback both_lv0_gone example_info).
    + reflexivity.
    + reflexivity.
    + reflexivity.
Defined.

(** ** The boot sequence *)


Global Instance early_preorder : PreOrder early.
Proof.
  split.
  - intros s. split; reflexivity.
  - intros s1 s2 s3 [H12 K12] [H23 K23]. split; etrans; eauto.
Qed.

Lemma early_log (m : logmsg) : early_line m → stable early (_log m).
Proof. intros Hm s. split; [by apply emits_log | done]. Qed.

Lemma early_call_entry (dll sym : string) (f : native) :
  early_call (dll, sym) → stable early (call dll sym f).
Proof.
  intros Hq s. split; [by apply emits_call |].
  unfold call, keeps. munfold. simpl. by destruct f.
Qed.

Lemma early_silent {A} (m : M A) :
  (∀ s, log (m s).2 = log s ∧ calls (m s).2 = calls s
        ∧ loaded (self (m s).2) = loaded (self s)) →
  stable early m.
Proof.
  intros H s. destruct (H s) as (Hl & Hc & Hk).
  split; [| exact Hk]. apply emits_silent. intros s0. by destruct (H s0) as (? & ? & ?).
Qed.

Ltac early_leaf :=
  first
    [ solve [apply early_log; reflexivity]
    | solve [apply early_call_entry; unfold early_call; simpl; discriminate]
    | solve [apply early_silent; prim_frame]
    | solve [eauto with frames] ].

Ltac early_auto := repeat stable_step; try early_leaf.

Lemma perform_hardware_detection_early : stable early perform_hardware_detection.
Proof. unfold perform_hardware_detection. early_auto. Qed.

Lemma initialize_syscon_early : stable early initialize_syscon.
Proof. unfold initialize_syscon. early_auto. Qed.

Lemma boot_lv0_stage_early : stable early boot_lv0_stage.
Proof. unfold boot_lv0_stage. early_auto. Qed.

Lemma initialize_virtual_flash_early : stable early initialize_virtual_flash.
Proof. unfold initialize_virtual_flash, write_placeholders. early_auto. Qed.
#[local] Hint Resolve initialize_virtual_flash_early : frames.

Lemma get_vflash_info_early : stable early get_vflash_info.
Proof. unfold get_vflash_info. early_auto. Qed.
#[local] Hint Resolve get_vflash_info_early : frames.

Lemma mount_virtual_flash_early : stable early mount_virtual_flash.
Proof. unfold mount_virtual_flash. early_auto. Qed.
#[local] Hint Resolve mount_virtual_flash_early : frames.

Lemma select_first_early (base : path) (cands : list string) :
  stable early (select_first base cands).
Proof.
  induction cands as [| c cands IH]; simpl.
  - early_auto.
  - unfold _valid. early_auto.
Qed.
#[local] Hint Resolve select_first_early : frames.

Lemma select_ros_slot_early (preferred : option string) :
  stable early (select_ros_slot preferred).
Proof. unfold select_ros_slot. early_auto. Qed.
#[local] Hint Resolve select_ros_slot_early : frames.

Lemma _verify_lv0_and_appldr_early : stable early _verify_lv0_and_appldr.
Proof. unfold _verify_lv0_and_appldr, present_nonempty. early_auto. Qed.
#[local] Hint Resolve _verify_lv0_and_appldr_early : frames.

Lemma run_checklist_early (steps : list (string * bool)) (b : bool) :
  stable early (run_checklist steps b).
Proof.
  revert b. induction steps as [| [n v] steps IH]; intros b; simpl.
  - early_auto.
  - early_auto.
Qed.
#[local] Hint Resolve run_checklist_early : frames.

Lemma validate_boot_chain_early : stable early validate_boot_chain.
Proof. unfold validate_boot_chain. early_auto. Qed.

Lemma flash_mount_stage_early : stable early flash_mount_stage.
Proof. unfold flash_mount_stage. early_auto. Qed.


Lemma returns_catch_all {A} (m : M A) (h : exn → M A) :
  (∀ e, returns (h e)) → returns (try_except m Exception h).
Proof.
  intros Hh s. unfold try_except, Exception.
  destruct (m s) as [[a | e] s']; [by eexists _, _ | apply Hh].
Qed.

Lemma returns_log_ret {A} (m : logmsg) (a : A) : returns (_log m ;; ret a).
Proof. intros s. by eexists _, _. Qed.

Lemma perform_hardware_detection_returns : returns perform_hardware_detection.
Proof. apply returns_catch_all. intros e. apply returns_log_ret. Qed.
Lemma initialize_syscon_returns : returns initialize_syscon.
Proof. apply returns_catch_all. intros e. apply returns_log_ret. Qed.
Lemma validate_boot_chain_returns : returns validate_boot_chain.
Proof. apply returns_catch_all. intros e. apply returns_log_ret. Qed.
Lemma flash_mount_stage_returns : returns flash_mount_stage.
Proof. apply returns_catch_all. intros e. apply returns_log_ret. Qed.
Lemma boot_lv0_stage_returns : returns boot_lv0_stage.
Proof. apply returns_catch_all. intros e. apply returns_log_ret. Qed.
Lemma boot_lv1_stage_returns : returns boot_lv1_stage.
Proof. apply returns_catch_all. intros e. apply returns_log_ret. Qed.
Lemma boot_lv2_stage_returns : returns boot_lv2_stage.
Proof. apply returns_catch_all. intros e. apply returns_log_ret. Qed.

(** *** The sequence as an ordered list of stages

    The method is the driver [run_stages] over [boot_stages], framed by
    its first and last log lines. *)


Lemma execute_full_boot_sequence_eq (s : State) :
  execute_full_boot_sequence s =
    let r := run_stages boot_stages (boot_start s) in
    (Ok (bool_decide (r.1 = None)), report r.1 r.2).
Proof.
  unfold execute_full_boot_sequence, boot_stages, run_stages, hardware_detect_stage.
  mcbv. fold (boot_start s).
  destruct (perform_hardware_detection_returns (boot_start s)) as (hw & s1 & ->).
  destruct (bool_decide (hw = [])); mcbv; [done |].
  destruct (initialize_syscon_returns s1) as ([] & s2 & ->); mcbv; [| done].
  destruct (validate_boot_chain_returns s2) as ([] & s3 & ->); mcbv; [| done].
  destruct (flash_mount_stage_returns s3) as ([] & s4 & ->); mcbv; [| done].
  destruct (boot_lv0_stage_returns s4) as ([] & s5 & ->); mcbv; [| done].
  destruct (boot_lv1_stage_returns s5) as ([] & s6 & ->); mcbv; [| done].
  destruct (boot_lv2_stage_returns s6) as ([] & s7 & ->); mcbv; done.
Qed.

Lemma run_stages_all_pass (stages : list (stage * M bool)) (s s' : State) :
  run_stages stages s = (None, s') → all_pass stages s s'.
Proof.
  revert s. induction stages as [| [id m] rest IH]; intros s H; simpl in H.
  - injection H as <-. constructor.
  - destruct (m s) as [[[] | e] s1] eqn:Hm; try done.
    econstructor; [exact Hm | by apply IH].
Qed.

Lemma run_stages_app (a b : list (stage * M bool)) (s : State) :
  run_stages (a ++ b) s =
    match run_stages a s with
    | (None, s') => run_stages b s'
    | r => r
    end.
Proof.
  revert s. induction a as [| [id m] a IH]; intros s; simpl; [done |].
  destruct (m s) as [[[] | e] s1]; auto.
Qed.

Lemma run_stages_early (stages : list (stage * M bool)) (s : State) :
  Forall (λ st, stable early st.2) stages → early s (run_stages stages s).2.
Proof.
  intros H. revert s. induction H as [| [id m] rest Hm _ IH]; intros s; simpl.
  - reflexivity.
  - specialize (Hm s). simpl in Hm.
    destruct (m s) as [[[] | e] s1]; simpl in *; try done.
    etrans; [exact Hm | apply IH].
Qed.

Lemma run_stages_failed (stages : list (stage * M bool)) (s s' : State) (id : stage) :
  run_stages stages s = (Some id, s') → id ∈ stages.*1.
Proof.
  revert s. induction stages as [| [id' m] rest IH]; intros s H; simpl in *; [done |].
  destruct (m s) as [[[] | e] s1]; simplify_eq; try (by left).
  right. by eapply IH.
Qed.

Lemma run_stages_keeps_passed (a : list (stage * M bool)) (s s' : State) :
  all_pass a s s' → run_stages a s = (None, s').
Proof. induction 1 as [| id m rest s s1 s2 Hm _ IH]; simpl; [done |]. by rewrite Hm. Qed.


Lemma early_stages_early : Forall (λ st, stable early st.2) early_stages.
Proof.
  unfold early_stages, boot_stages. simpl.
  repeat (apply Forall_cons; split; [simpl |]).
  - unfold hardware_detect_stage. early_auto. apply perform_hardware_detection_early.
  - apply initialize_syscon_early.
  - apply validate_boot_chain_early.
  - apply flash_mount_stage_early.
  - done.
Qed.

(** When the boot loader's LV0 entry point returns false, so does the
    LV0 stage, after that one native call. *)
Lemma boot_lv0_stage_false (s : State) (name : string) (lib : Lib) :
  find_loaded "gscx_bootloader" (loaded (self s)) = Some (name, lib) →
  lib !! "GSCX_LV0_Entry" = Some (Returns false) →
  boot_lv0_stage s =
    (Ok false,
     add_log (Text "[LV0] Initialization failed")
       (add_call (name, "GSCX_LV0_Entry")
          (add_log (Text "[BOOTLOADER] Iniciando LV0 - Primary Kernel...") s))).
Proof.
  intros Hf Hl. unfold boot_lv0_stage, getattr, call. mcbv.
  simpl. rewrite Hf, Hl. reflexivity.
Qed.

Lemma early_stage_ids (id : stage) : id ∈ early_stages.*1 → id ≠ LV1 ∧ id ≠ LV2.
Proof.
  intros H. cbn in H.
  repeat (apply elem_of_cons in H as [-> | H]; [done |]).
  by apply elem_of_nil in H.
Qed.


(** Each run of the LV1 and of the LV2 stage starts by logging its banner. *)
Lemma boot_lv1_stage_banner (s : State) :
  ∃ l, log (boot_lv1_stage s).2 = log s ++ lv1_banner :: l.
Proof.
  unfold boot_lv1_stage, getattr, call. munfold. simpl.
  repeat (case_match; simpl in *; simplify_eq);
    unfold add_log, add_call; simpl; rewrite <- ?app_assoc; simpl; by eexists.
Qed.

Lemma boot_lv2_stage_banner (s : State) :
  ∃ l, log (boot_lv2_stage s).2 = log s ++ lv2_banner :: l.
Proof.
  unfold boot_lv2_stage. munfold. simpl.
  repeat (case_match; simpl in *; simplify_eq);
    unfold add_log, add_call; simpl; rewrite <- ?app_assoc; simpl; by eexists.
Qed.

Lemma early_no_late (s s' : State) :
  early s s' →
  ∃ l c, log s' = log s ++ l ∧ (lv1_banner ∉ l) ∧ (lv2_banner ∉ l)
         ∧ calls s' = calls s ++ c ∧ (∀ dll, (dll, "GSCX_LV1_Entry") ∉ c).
Proof.
  intros [(l & c & Hl & HP & Hc & HQ) _]. exists l, c.
  rewrite Forall_forall in HP. rewrite Forall_forall in HQ.
  split_and!; try done.
  - intros Hin. by apply HP in Hin.
  - intros Hin. by apply HP in Hin.
  - intros dll Hin. by apply HQ in Hin.
Qed.

Lemma report_early (id : stage) (s : State) : early s (report (Some id) s).
Proof.
  destruct id; simpl; try reflexivity;
    match goal with |- early ?s (add_log ?m ?s) => apply (early_log m eq_refl s) end.
Qed.

(** C2: [execute_full_boot_sequence] runs the stages HardwareDetect,
    SysconInit, BootChainValidate, FlashMount, LV0, LV1, LV2 in that
    order and stops at the first one that fails; it returns [True] only
    if every stage succeeded. When the boot loader's LV0 entry point
    returns false the sequence ends at LV0 at the latest: the result is
    [False], the LV1 entry point is not called and neither the LV1 nor
    the LV2 stage is entered (each of them would log its banner). *)
Theorem execute_full_boot_sequence_ordered (s : State) :
  let r := run_stages boot_stages (boot_start s) in
  execute_full_boot_sequence s = (Ok (bool_decide (r.1 = None)), report r.1 r.2)
  ∧ ((execute_full_boot_sequence s).1 = Ok true →
     all_pass boot_stages (boot_start s) r.2)
  ∧ (∀ name lib,
       find_loaded "gscx_bootloader" (loaded (self s)) = Some (name, lib) →
       lib !! "GSCX_LV0_Entry" = Some (Returns false) →
       ∃ s' failed,
         execute_full_boot_sequence s = (Ok false, s')
         ∧ r.1 = Some failed ∧ failed ≠ LV1 ∧ failed ≠ LV2
         ∧ (∀ s4, all_pass early_stages (boot_start s) s4 → failed = LV0)
         ∧ ∃ l c, log s' = log s ++ l ∧ (lv1_banner ∉ l) ∧ (lv2_banner ∉ l)
                  ∧ calls s' = calls s ++ c ∧ (∀ dll, (dll, "GSCX_LV1_Entry") ∉ c))
  ∧ (∀ s0, ∃ l, log (boot_lv1_stage s0).2 = log s0 ++ lv1_banner :: l)
  ∧ (∀ s0, ∃ l, log (boot_lv2_stage s0).2 = log s0 ++ lv2_banner :: l).
Proof.
  intros r. split_and!.
  - apply execute_full_boot_sequence_eq.
  - rewrite execute_full_boot_sequence_eq. subst r. cbv zeta. intros H.
    apply run_stages_all_pass.
    destruct (run_stages boot_stages (boot_start s)) as [[id |] s']; [| done].
    by cbn in H.
  - intros name lib Hf Hl.
    assert (Hstart : early s (boot_start s)).
    { apply (early_log (Text "[BOOT] Starting complete PS3 boot sequence...") eq_refl s). }
    pose proof (run_stages_early early_stages (boot_start s) early_stages_early) as He.
    (* the first five stages always end in a failure *)
    assert (Hfive : ∃ failed s5,
      run_stages (take 5 boot_stages) (boot_start s) = (Some failed, s5)
      ∧ early (boot_start s) s5 ∧ failed ≠ LV1 ∧ failed ≠ LV2
      ∧ (∀ s4, all_pass early_stages (boot_start s) s4 → failed = LV0)).
    { change (take 5 boot_stages) with (early_stages ++ [(LV0, boot_lv0_stage)]).
      rewrite run_stages_app.
      destruct (run_stages early_stages (boot_start s)) as [[id |] s4] eqn:Hr; simpl in He.
      - exists id, s4. split_and!; try done.
        + apply run_stages_failed, early_stage_ids in Hr. tauto.
        + apply run_stages_failed, early_stage_ids in Hr. tauto.
        + intros s4' Hp. apply run_stages_keeps_passed in Hp. congruence.
      - assert (Hk : loaded (self s4) = loaded (self s)).
        { destruct He as [_ He]. destruct Hstart as [_ Hs]. unfold keeps in *. congruence. }
        simpl. rewrite (boot_lv0_stage_false s4 name lib) by (by rewrite ?Hk).
        eexists LV0, _. split_and!; try done.
        etrans; [exact He |].
        pose proof (boot_lv0_stage_early s4) as H0.
        by rewrite (boot_lv0_stage_false s4 name lib) in H0 by (by rewrite ?Hk). }
    destruct Hfive as (failed & s5 & H5 & He5 & Hn1 & Hn2 & Hlv0).
    assert (Hr : r = (Some failed, s5)).
    { unfold r. change boot_stages with (take 5 boot_stages ++ drop 5 boot_stages).
      by rewrite run_stages_app, H5. }
    exists (report (Some failed) s5), failed.
    rewrite execute_full_boot_sequence_eq. fold r. rewrite Hr. simpl.
    split_and!; try done.
    apply early_no_late. etrans; [exact Hstart |]. etrans; [exact He5 |].
    apply report_early.
  - apply boot_lv1_stage_banner.
  - apply boot_lv2_stage_banner.
Qed.

Lemma execute_full_boot_sequence_ordered_witness :
  all_pass boot_stages (boot_start (booting_state true))
    (run_stages boot_stages (boot_start (booting_state true))).2
  ∧ ∃ s', execute_full_boot_sequence (booting_state false) = (Ok false, s')
          ∧ ∀ dll, (dll, "GSCX_LV1_Entry") ∉ drop (length (calls (booting_state false))) (calls s').
Proof.
  split.
  - destruct (execute_full_boot_sequence_ordered (booting_state true)) as (_ & H & _).
    apply H. reflexivity.
  - destruct (execute_full_boot_sequence_ordered (booting_state false)) as (_ & _ & H & _).
    destruct (H "gscx_bootloader.dll" {[ "GSCX_LV0_Entry" := Returns false ]}
                eq_refl eq_refl)
      as (s' & failed & He & _ & _ & _ & _ & l & c & _ & _ & _ & Hc & Hn).
    exists s'. split; [exact He |].
    rewrite Hc, drop_app_length. exact Hn.
Defined.

(** ** Initialising the virtual flash *)

(** The directories of the layout, created one after the other. *)
Lemma layout_dirs_created (base : path) (names : list string) :
  ∀ s s', forM_ names (λ p, os_makedirs (base ++ [p])) s = (Ok tt, s') →
    ∃ t', s' = set_tree t' s
      ∧ (∀ p, p ∈ names → t' !! (base ++ [p]) = Some Dir)
      ∧ (∀ q n, tree (os s) !! q = Some n → t' !! q = Some n)
      ∧ (∀ q, (length base + 1 < length q)%nat → t' !! q = tree (os s) !! q).
Proof.
  induction names as [| p names IH]; intros s s' H; simpl in H.
  - injection H as <-. exists (tree (os s)). split_and!; try done.
    + by destruct s as [[] ? ? ?].
    + intros p Hp. by apply elem_of_nil in Hp.
  - apply bind_Ok_inv in H as ([] & s1 & H1 & H2).
    apply os_makedirs_inv in H1 as (t1 & Hm & ->).
    apply IH in H2 as (t' & -> & Hd & Hpres & Hlong). simpl in *.
    exists t'. split_and!; try done.
    + intros p' [-> | Hin]%elem_of_cons; [| by apply Hd].
      apply Hpres. eapply makedirs_ok_dir; [exact Hm |]. by destruct base.
    + intros q n Hq. apply Hpres. eapply makedirs_go_preserves; eauto.
    + intros q Hq. rewrite Hlong by done. eapply makedirs_go_long; [exact Hm |].
      rewrite length_app. simpl. lia.
Qed.

Lemma app2 (base : path) (a b : string) : base ++ [a; b] = (base ++ [a]) ++ [b].
Proof. by rewrite <- app_assoc. Qed.

Lemma write_under (base : path) (t : gmap path node) (a b : string) (data : bytes) :
  t !! (base ++ [a]) = Some Dir → t !! (base ++ [a; b]) ≠ Some Dir →
  write_file t (base ++ [a; b]) data = (Ok tt, <[base ++ [a; b] := File data]> t).
Proof.
  intros Ha Hb. rewrite app2. apply write_file_ok.
  - rewrite lookup_node_ne_nil by (by destruct base). done.
  - by rewrite <- app2.
Qed.

(** Two paths below the same directory that differ in a component. *)
Ltac path_ne :=
  let H := fresh in
  intros H; rewrite <- ?app_assoc in H; apply app_inv_head in H; discriminate H.

Ltac in_list := rewrite ?elem_of_cons; tauto.

Lemma write_placeholders_ok (base : path) (s : State) :
  (∀ p, p ∈ ["bootloader"; "ros0"; "ros1"; "registry"] →
        tree (os s) !! (base ++ [p]) = Some Dir) →
  (∀ q, q ∈ placeholder_paths base → tree (os s) !! q ≠ Some Dir) →
  ∃ t', write_placeholders base s = (Ok tt, set_tree t' s)
        ∧ placeholders_written base t'
        ∧ (∀ q, q ∉ placeholder_paths base → t' !! q = tree (os s) !! q).
Proof.
  intros Hd Hf.
  unfold write_placeholders, ros_slots, forM_, open_write, on_tree. mcbv.
  unfold placeholder_paths in Hf.
  repeat (rewrite write_under;
          [ cbn [tree os set_tree set_os with_tree]
          | rewrite ?lookup_insert_ne by path_ne; apply Hd; in_list
          | rewrite ?lookup_insert_ne by path_ne; apply Hf; in_list ]).
  eexists. split; [reflexivity |]. split.
  - unfold placeholders_written.
    split_and!; rewrite ?lookup_insert_ne by path_ne; apply lookup_insert_eq.
  - intros q Hq. unfold placeholder_paths in Hq.
    rewrite !lookup_insert_ne; [done | ..]; intros <-; apply Hq; in_list.
Qed.



Lemma initialize_virtual_flash_populate (s : State) :
  initialize_virtual_flash s =
    try_except
      (bd <- gets (λ s, _vflash_dir (self s)) ;;
       base_dir <-
         match bd with
         | Some b => ret b
         | None =>
           td <- gets (λ s, _temp_dir (self s)) ;;
           tmp <- match td with
                  | Some d => ret d
                  | None =>
                    d <- tempfile_mkdtemp "gscx_runtime_" ;;
                    modify (set_self (with_temp_dir (Some d))) ;;
                    ret d
                  end ;;
           let b := tmp ++ ["vflash"] in
           modify (set_self (with_vflash_dir (Some b))) ;;
           ret b
         end ;;
       populate base_dir)
      Exception
      (λ e, _log (Text ("[VFLASH] Error initializing virtual flash: " +:+ exn_str e)) ;;
            raise e) s.
Proof. reflexivity. Qed.


Lemma placeholder_long (base q : path) :
  q ∈ placeholder_paths base → (length base < length q)%nat.
Proof.
  unfold placeholder_paths. intros Hq.
  repeat (apply elem_of_cons in Hq as [-> | Hq]; [rewrite length_app; simpl; lia |]).
  by apply elem_of_nil in Hq.
Qed.





(** ** Cleaning a partition *)




(** ** Formatting the virtual flash *)





(** ** Recovery *)

Lemma recovery_cleanup_eq (s : State) :
  ∃ s', recovery_cleanup s = (Ok tt, s')
        ∧ environ (os s') !! RECOVERY_PUP = None
        ∧ tree (os s') = tree (os s) ∧ self s' = self s.
Proof.
  unfold recovery_cleanup, in_environ, delenv. mcbv.
  destruct (environ (os s) !! RECOVERY_PUP) eqn:E; simpl.
  - eexists. split; [reflexivity |]. simpl. by rewrite lookup_delete_eq.
  - by eexists.
Qed.

Lemma call_recovery_entry_keeps_tree : stable (keeps (λ s, tree (os s))) call_recovery_entry.
Proof. unfold call_recovery_entry. keeps_auto. Qed.

Lemma call_recovery_entry_keeps_self : stable (keeps self) call_recovery_entry.
Proof. unfold call_recovery_entry. keeps_auto. Qed.



Lemma try_finally_total {A} (m : M A) (fin : M unit) (s : State) :
  (∀ s1, ∃ s2, fin s1 = (Ok tt, s2)) →
  try_finally m fin s = ((m s).1, (fin (m s).2).2).
Proof.
  intros Hf. unfold try_finally. destruct (m s) as [r s1]. simpl.
  by destruct (Hf s1) as (s2 & ->).
Qed.

(** When staging the firmware image fails, [boot_recovery] re-raises
    before its [try] block is entered. *)
Lemma boot_recovery_provision_fails (pup usb : option path) (s s1 : State) (e : exn) :
  provision pup usb s = (Raise e, s1) → boot_recovery pup usb s = (Raise e, s1).
Proof. intros H. unfold boot_recovery, bind. by rewrite H. Qed.



(** ** Extraction of a bundle *)








Lemma take_prefix {A} (k : nat) (l : list A) : take k l `prefix_of` l.
Proof. exists (drop k l). by rewrite take_drop. Qed.

Lemma removelast_take {A} (l : list A) : removelast l = take (length l - 1) l.
Proof.
  induction l as [| x l IH]; [done |]. simpl. destruct l as [| y l]; [done |].
  rewrite IH. simpl. by rewrite Nat.sub_0_r.
Qed.

Lemma removelast_snoc {A} (l : list A) :
  l ≠ [] → ∃ c, l = removelast l ++ [c].
Proof.
  intros H. destruct (exists_last H) as (l' & c & ->). exists c. by rewrite removelast_last.
Qed.





Lemma mkdtemp_fresh (prefix : string) (s : State) :
  is_dir (tree (os s)) (tmp_root (os s)) = true →
  ∃ nm, tempfile_mkdtemp prefix s
        = (Ok (tmp_root (os s) ++ [nm]),
           set_tree (<[tmp_root (os s) ++ [nm] := Dir]> (tree (os s))) s)
    ∧ tree (os s) !! (tmp_root (os s) ++ [nm]) = None.
Proof.
  intros Hd. unfold tempfile_mkdtemp. rewrite Hd. eexists. split; [reflexivity |].
  apply eq_None_not_Some. rewrite <- elem_of_children.
  intros Hin. eapply fresh_string_of_set_fresh. apply elem_of_list_to_set. exact Hin.
Qed.






(** ** Byte strings *)


Lemma blen_slice (data : bytes) (lo hi : N) :
  blen (slice data lo hi) = (N.min hi (blen data) - N.min lo (blen data))%N.
Proof. unfold slice, blen. rewrite length_take, length_drop. lia. Qed.










(** ** Reading back an encoded table *)


(** ** Packed containers *)









(** ** Bundle extraction: content and paths *)







(** ** Bundle extraction: truncated containers *)





(** ** Loading modules *)

Lemma init_returnsb_sound (l : list (string * Lib)) :
  init_returnsb l = true → init_returns l.
Proof.
  unfold init_returnsb. rewrite forallb_forall. intros H m e Hin Hm.
  apply list_elem_of_In in Hin. specialize (H m Hin). by rewrite Hm in H.
Qed.

Lemma load_one_absent (d : path) (dll : string) (s : State) :
  module_at (os s) d dll = None →
  ∃ s', load_one d dll s = (Ok tt, s')
    ∧ os s' = os s ∧ self s' = self s ∧ calls s' = calls s.
Proof.
  unfold module_at, load_one, os_path_isfile, is_file, load_library, read_file. mcbv.
  destruct (lookup_node (tree (os s)) (d ++ [dll])) as [[data |] |] eqn:Hl;
    try by eexists.
  cbv beta. rewrite Hl.
  destruct (WinDLL (os s) data); [done |]. intros _. cbn. by eexists.
Qed.

Lemma load_one_present (d : path) (dll : string) (lib : Lib) (s : State) :
  module_at (os s) d dll = Some (dll, lib) →
  (∀ e, lib !! ENTRY_INIT ≠ Some (Throws e)) →
  ∃ s', load_one d dll s = (Ok tt, s')
    ∧ os s' = os s
    ∧ self s' = with_loaded (loaded (self s) ++ [(dll, lib)]) (self s)
    ∧ calls s' = calls s ++ entry_calls ENTRY_INIT [(dll, lib)].
Proof.
  unfold module_at, load_one, os_path_isfile, is_file, load_library, read_file. mcbv.
  destruct (lookup_node (tree (os s)) (d ++ [dll])) as [[data |] |] eqn:Hl; try done.
  cbv beta. rewrite Hl.
  destruct (WinDLL (os s) data) as [lib' |]; [| done]. intros [= ->] Hinit.
  unfold getattr, call, entry_calls. cbn [omap list_omap fst snd].
  destruct (lib !! ENTRY_GETINFO), (lib !! ENTRY_INIT) as [[b | e] |];
    try (by destruct (Hinit e)); mcbv; cbn; eexists; split_and!; try reflexivity;
    by rewrite ?app_nil_r.
Qed.

Lemma load_names (d : path) (names : list string) (s : State) :
  init_returns (omap (module_at (os s) d) names) →
  ∃ s', forM_ names (load_one d) s = (Ok tt, s')
    ∧ os s' = os s
    ∧ self s' = with_loaded (loaded (self s) ++ omap (module_at (os s) d) names) (self s)
    ∧ calls s' = calls s ++ entry_calls ENTRY_INIT (omap (module_at (os s) d) names).
Proof.
  revert s. induction names as [| dll names IH]; intros s Hinit.
  - exists s. cbn. rewrite !app_nil_r. by destruct s as [? []].
  - cbn [forM_ omap list_omap] in *. unfold bind.
    destruct (module_at (os s) d dll) as [[dll' lib] |] eqn:Hm.
    + assert (dll' = dll) as ->.
      { revert Hm. unfold module_at. repeat case_match; congruence. }
      destruct (load_one_present d dll lib s Hm) as (s1 & -> & Ho & Hs & Hc).
      { intros e. apply (Hinit (dll, lib) e). by left. }
      destruct (IH s1) as (s2 & -> & Ho2 & Hs2 & Hc2).
      { rewrite Ho. intros m e Hin. apply Hinit. by right. }
      exists s2. rewrite Ho in *. split_and!; try done; try congruence.
      * rewrite Hs2, Hs. cbn. by rewrite <- app_assoc.
      * rewrite Hc2, Hc. unfold entry_calls. cbn [omap list_omap fst snd].
        rewrite <- app_assoc. by destruct (lib !! ENTRY_INIT).
    + destruct (load_one_absent d dll s Hm) as (s1 & -> & Ho & Hs & Hc).
      destruct (IH s1) as (s2 & -> & Ho2 & Hs2 & Hc2); [by rewrite Ho |].
      exists s2. rewrite Ho in *. split_and!; try done; congruence.
Qed.

Lemma entry_calls_app (sym : string) (l1 l2 : list (string * Lib)) :
  entry_calls sym (l1 ++ l2) = entry_calls sym l1 ++ entry_calls sym l2.
Proof. unfold entry_calls. apply omap_app. Qed.

Lemma load_dirs (dirs : list path) (s : State) :
  init_returns (modules_in (os s) dirs) →
  ∃ s', _load_from_dirs dirs s = (Ok tt, s')
    ∧ os s' = os s
    ∧ self s' = with_loaded (loaded (self s) ++ modules_in (os s) dirs) (self s)
    ∧ calls s' = calls s ++ entry_calls ENTRY_INIT (modules_in (os s) dirs).
Proof.
  unfold _load_from_dirs. fold dll_names. unfold modules_in.
  revert s. induction dirs as [| d dirs IH]; intros s Hinit.
  - exists s. cbn. rewrite !app_nil_r. by destruct s as [? []].
  - cbn [forM_ mbind list_bind] in *. unfold bind.
    destruct (load_names d dll_names s) as (s1 & -> & Ho & Hs & Hc).
    { intros m e Hin. apply Hinit. apply elem_of_app. by left. }
    destruct (IH s1) as (s2 & -> & Ho2 & Hs2 & Hc2).
    { rewrite Ho. intros m e Hin. apply Hinit. apply elem_of_app. by right. }
    exists s2. rewrite Ho in *. split_and!; try done.
    + rewrite Hs2, Hs. cbn. by rewrite <- app_assoc.
    + rewrite Hc2, Hc, entry_calls_app. by rewrite <- app_assoc.
Qed.

(** X1: [_load_from_dirs] registers one entry for every module file the
    library loader accepts, directory by directory and within a directory
    in the order of [MODULES], without looking at what [GSCX_Initialize]
    returned and whether the module exports it at all; a module found in
    two directories is registered twice. It calls [GSCX_Initialize] once
    for each registered module that exports it, and leaves the file
    system alone. *)
Theorem _load_from_dirs_registers (dirs : list path) (s : State) :
  init_returns (modules_in (os s) dirs) →
  ∃ s', _load_from_dirs dirs s = (Ok tt, s')
    ∧ loaded (self s') = loaded (self s) ++ modules_in (os s) dirs
    ∧ calls s' = calls s ++ entry_calls ENTRY_INIT (modules_in (os s) dirs)
    ∧ os s' = os s.
Proof.
  intros Hinit. destruct (load_dirs dirs s Hinit) as (s' & H & Ho & Hs & Hc).
  exists s'. split_and!; try done. by rewrite Hs.
Qed.

Lemma _load_from_dirs_registers_witness :
  ∃ s', _load_from_dirs [["app"; "build"]; ["app"; "build"]] build_state = (Ok tt, s')
    ∧ loaded (self s')
      = loaded (self build_state) ++ modules_in (os build_state) [["app"; "build"]; ["app"; "build"]]
    ∧ calls s'
      = calls build_state
        ++ entry_calls ENTRY_INIT (modules_in (os build_state) [["app"; "build"]; ["app"; "build"]])
    ∧ os s' = os build_state.
Proof.
  apply (_load_from_dirs_registers [["app"; "build"]; ["app"; "build"]] build_state).
  apply init_returnsb_sound. vm_compute. reflexivity.
Defined.

(** X2: what [_load_from_dirs] does with a module whose [GSCX_Initialize]
    raises. An [AttributeError] is taken for a missing entry point and the
    module is registered; an [OSError] is reported as a load failure and
    the module is skipped; any other exception leaves the loader, with the
    module not registered. The call is recorded in each case. *)
Theorem load_one_init_raises (d : path) (dll : string) (lib : Lib) (e : exn) (s : State) :
  module_at (os s) d dll = Some (dll, lib) →
  lib !! ENTRY_INIT = Some (Throws e) →
  ∃ s', load_one d dll s
        = (if is_AttributeError e || is_OSError e then Ok tt else Raise e, s')
    ∧ loaded (self s')
      = (if is_AttributeError e then loaded (self s) ++ [(dll, lib)] else loaded (self s))
    ∧ (is_AttributeError e = false → is_OSError e = true →
       last (log s') = Some (Tr "modules.load_failed"
                               [("path", path_str (d ++ [dll])); ("error", exn_str e)]))
    ∧ calls s' = calls s ++ [(dll, ENTRY_INIT)]
    ∧ os s' = os s.
Proof.
  unfold module_at, load_one, os_path_isfile, is_file, load_library, read_file. mcbv.
  destruct (lookup_node (tree (os s)) (d ++ [dll])) as [[data |] |] eqn:Hl; try done.
  cbv beta. rewrite Hl.
  destruct (WinDLL (os s) data) as [lib' |]; [| done]. intros [= ->] Hinit.
  unfold getattr, call. rewrite Hinit.
  destruct (lib !! ENTRY_GETINFO); mcbv; cbn;
    destruct (is_AttributeError e) eqn:Ha; cbn;
    try (destruct (is_OSError e) eqn:Ho; cbn);
    eexists; (split_and!; [reflexivity | try done ..]);
    intros _ _; unfold add_log at 1; cbn [log]; apply last_snoc.
Qed.

Lemma load_one_init_raises_witness :
  ∃ s', load_one ["app"; "build"] "gscx_syscon.dll" (faulty_state (RuntimeError "init"))
        = (Raise (RuntimeError "init"), s')
    ∧ loaded (self s') = []
    ∧ calls s' = [("gscx_syscon.dll", ENTRY_INIT)].
Proof.
  destruct (load_one_init_raises ["app"; "build"] "gscx_syscon.dll"
              {[ ENTRY_INIT := Throws (RuntimeError "init") ]} (RuntimeError "init")
              (faulty_state (RuntimeError "init")))
    as (s' & H & Hl & _ & Hc & _).
  - vm_compute. reflexivity.
  - vm_compute. reflexivity.
  - exists s'. split_and!; [exact H | exact Hl | exact Hc].
Defined.

(** X3: [load_default_modules] looks for [build], [cpp/build] and [bin]
    under the working directory, in this order, and loads from those that
    are directories. With none of them it only logs that the build
    directories are missing; it never creates them. *)
Theorem load_default_modules_search (cwd : path) (s : State) :
  init_returns (modules_in (os s) (build_dirs (os s) cwd)) →
  ∃ s', load_default_modules cwd s = (Ok tt, s')
    ∧ loaded (self s') = loaded (self s) ++ modules_in (os s) (build_dirs (os s) cwd)
    ∧ os s' = os s
    ∧ (build_dirs (os s) cwd = [] →
       s' = add_log (Tr "modules.build_dirs_missing" []) s).
Proof.
  intros Hinit. unfold load_default_modules. mcbv. fold (build_dirs (os s) cwd).
  destruct (build_dirs (os s) cwd) as [| d ds] eqn:Hb.
  - eexists. split; [reflexivity |]. cbn. by rewrite app_nil_r.
  - destruct (load_dirs (d :: ds) s Hinit) as (s' & H & Ho & Hs & Hc).
    exists s'. split_and!; try done. by rewrite Hs.
Qed.

Lemma load_default_modules_search_witness :
  ∃ s', load_default_modules ["app"] build_state = (Ok tt, s')
    ∧ loaded (self s')
      = [ ("gscx_cpu_cell.dll", {[ ENTRY_INIT := Returns false ]});
          ("gscx_recovery.dll", ∅) ]
    ∧ os s' = os build_state.
Proof.
  destruct (load_default_modules_search ["app"] build_state) as (s' & H & Hl & Ho & _).
  - apply init_returnsb_sound. vm_compute. reflexivity.
  - exists s'. split_and!; [exact H | | exact Ho].
    rewrite Hl. vm_compute. reflexivity.
Defined.

(** ** Bundles that are not read, and entries that leave the staging directory *)

(** X4: a bundle that cannot be opened, or whose entry table cannot be
    read for whatever reason (a name that is not UTF-8 as well as a
    truncation), is reported by one log line; [load_from_gscore] returns
    normally and changes nothing else: the staging directory of an earlier
    bundle and the registered modules stay as they were. *)
Theorem load_from_gscore_rejects (s : State) (bundle_path : path) (e : exn) :
  read_file (tree (os s)) bundle_path = Raise e
  ∨ (∃ data, read_file (tree (os s)) bundle_path = Ok data
       ∧ has_header data
       ∧ parse_entries data (header_count data) 8 [] = Raise e) →
  ∃ key, load_from_gscore bundle_path s
         = (Ok tt, add_log (Tr key [("error", exn_str e)]) s)
    ∧ key = match read_file (tree (os s)) bundle_path with
            | Ok _ => "modules.bundle_table_read_error"
            | Raise _ => "modules.bundle_open_fail"
            end.
Proof.
  intros [Hread | (data & Hread & [Hlen Hmagic] & Hparse)];
    unfold load_from_gscore, open_read; mcbv; rewrite Hread.
  - by eexists.
  - destruct (N.ltb_spec (blen data) 8) as [? | _]; [lia |].
    unfold unpack_IHH. destruct (N.leb_spec 8 (blen data)) as [_ | ?]; [| lia].
    rewrite Hmagic, N.eqb_refl.
    unfold header_count in Hparse. rewrite Hparse. by eexists.
Qed.

Lemma load_from_gscore_rejects_witness :
  ∃ key, load_from_gscore ["tmp"; "b.gscb"] (bundle_state bad_name_container)
         = (Ok tt, add_log (Tr key [("error", exn_str UnicodeDecodeError)])
                     (bundle_state bad_name_container))
    ∧ key = match read_file (tree (os (bundle_state bad_name_container))) ["tmp"; "b.gscb"] with
            | Ok _ => "modules.bundle_table_read_error"
            | Raise _ => "modules.bundle_open_fail"
            end.
Proof.
  apply (load_from_gscore_rejects (bundle_state bad_name_container) ["tmp"; "b.gscb"]
           UnicodeDecodeError).
  right. exists bad_name_container. split_and!.
  - vm_compute. reflexivity.
  - split; [vm_compute; discriminate | vm_compute; reflexivity].
  - vm_compute. reflexivity.
Defined.

Lemma makedirs_go_existing (rest : list string) :
  ∀ t cur,
    (∀ k, (0 < k ≤ length rest)%nat → t !! (cur ++ take k rest) = Some Dir) →
    makedirs_go t cur rest = (Ok tt, t).
Proof.
  induction rest as [| c rest IH]; intros t cur H; [done |].
  cbn [makedirs_go].
  pose proof (H 1%nat) as H1. cbn [take length] in H1. rewrite take_0 in H1.
  rewrite H1 by lia.
  apply IH. intros k Hk. specialize (H (S k)). cbn [take length] in H.
  rewrite <- app_assoc. apply H. lia.
Qed.




(** ** Unloading *)

Lemma unload_one_eq (m : string * Lib) (s : State) :
  unload_one m s
  = (Ok tt,
     {| os := os s; self := self s; log := log s ++ [unloaded_line m];
        calls := calls s ++ entry_calls ENTRY_SHUT [m] |}).
Proof.
  destruct m as [name lib].
  unfold unload_one, entry_calls, getattr, call, unloaded_line. cbn [fst snd].
  cbn [omap list_omap fst snd].
  destruct (lib !! ENTRY_SHUT) as [[b | e] |]; mcbv; cbn [app];
    rewrite ?app_nil_r; by destruct s.
Qed.

Lemma unload_each (l : list (string * Lib)) (s : State) :
  forM_ l unload_one s
  = (Ok tt,
     {| os := os s; self := self s; log := log s ++ map unloaded_line l;
        calls := calls s ++ entry_calls ENTRY_SHUT l |}).
Proof.
  revert s. induction l as [| m l IH]; intros s.
  - simpl. unfold ret, entry_calls. simpl. rewrite !app_nil_r. by destruct s.
  - cbn [forM_]. unfold bind. rewrite unload_one_eq, IH. cbn [os self log calls].
    f_equal. f_equal.
    + by rewrite <- app_assoc.
    + rewrite <- app_assoc. f_equal. unfold entry_calls. cbn [omap list_omap].
      by destruct (m.2 !! ENTRY_SHUT).
Qed.

(** The state [unload_all] leaves, written out. *)
Lemma unload_all_run (s : State) :
  unload_all s
  = (Ok tt,
     let s0 := {| os := os s; self := with_loaded [] (self s);
                  log := log s ++ map unloaded_line (loaded (self s));
                  calls := calls s ++ entry_calls ENTRY_SHUT (loaded (self s)) |} in
     match _temp_dir (self s) with
     | Some d =>
       set_self (with_temp_dir None)
         (set_tree (rmtree (tree (os s)) (locked (os s)) d) s0)
     | None => s0
     end).
Proof.
  unfold unload_all. mcbv. rewrite unload_each. mcbv.
  cbn [self os set_self with_loaded _temp_dir].
  destruct (_temp_dir (self s)); [unfold shutil_rmtree; mcbv |]; reflexivity.
Qed.

Lemma unload_all_outside (s : State) (q : path) :
  (∀ d, _temp_dir (self s) = Some d → ¬ d `prefix_of` q) →
  tree (os (unload_all s).2) !! q = tree (os s) !! q.
Proof.
  intros Hq. rewrite unload_all_run. cbv zeta.
  destruct (_temp_dir (self s)) as [d |] eqn:Htd; cbn; [| done].
  rewrite rmtree_lookup. destruct (is_dir (tree (os s)) d); [| done].
  rewrite bool_decide_eq_false_2; [done |]. by apply Hq.
Qed.

Lemma unload_all_keeps_usb (s : State) :
  _vusb_dir (self (unload_all s).2) = _vusb_dir (self s)
  ∧ last_usb_dir (self (unload_all s).2) = last_usb_dir (self s).
Proof. rewrite unload_all_run. cbv zeta. by destruct (_temp_dir (self s)). Qed.

(** X9: [unload_all] never raises, whatever the modules' shutdown entry
    points do. Afterwards no module is registered and no staging
    directory is recorded; the staging directory is removed from the file
    system as far as its entries can be deleted; the virtual USB directory
    stays recorded. *)
Theorem unload_all_clears (s : State) :
  ∃ s', unload_all s = (Ok tt, s')
    ∧ loaded (self s') = []
    ∧ _temp_dir (self s') = None
    ∧ _vusb_dir (self s') = _vusb_dir (self s)
    ∧ last_usb_dir (self s') = last_usb_dir (self s)
    ∧ (∀ d q, _temp_dir (self s) = Some d → is_dir (tree (os s)) d = true →
              unlocked_below s d → d `prefix_of` q → tree (os s') !! q = None)
    ∧ (∀ q, (∀ d, _temp_dir (self s) = Some d → ¬ d `prefix_of` q) →
            tree (os s') !! q = tree (os s) !! q).
Proof.
  rewrite unload_all_run. eexists. split; [reflexivity |]. cbv zeta.
  destruct (_temp_dir (self s)) as [d |] eqn:Htd; cbn; split_and!; try done.
  - intros d' q [= <-] Hdir Hun Hpre. rewrite rmtree_lookup, Hdir.
    rewrite bool_decide_eq_true_2 by done.
    rewrite not_pinned; [done |]. intros r Hr. apply Hun. by etrans.
  - intros q Hq. rewrite rmtree_lookup. destruct (is_dir (tree (os s)) d); [| done].
    rewrite bool_decide_eq_false_2; [done |]. by apply Hq.
Qed.

(** X10: [unload_all] visits the modules in load order: it calls the
    [GSCX_Shutdown] of each module that exports one, exactly once, makes
    no other native call, swallows whatever those calls raise, and logs
    one line per module, exporting or not. *)
Theorem unload_all_shutdown_order (s : State) :
  calls (unload_all s).2 = calls s ++ entry_calls ENTRY_SHUT (loaded (self s))
  ∧ log (unload_all s).2 = log s ++ map unloaded_line (loaded (self s)).
Proof.
  rewrite unload_all_run. cbv zeta. cbn [snd].
  by destruct (_temp_dir (self s)).
Qed.

(** ** Recovery: the staged firmware image *)

Lemma prefix_snoc_cases {A} (t l : list A) (x : A) :
  t `prefix_of` l ++ [x] → t = l ++ [x] ∨ t `prefix_of` l.
Proof.
  intros [r Hr]. destruct r as [| y r _] using List.rev_ind.
  - left. by rewrite app_nil_r in Hr.
  - right. rewrite app_assoc in Hr. apply app_inj_tail in Hr as [-> _]. by exists r.
Qed.

Lemma boot_recovery_after (pup usb : option path) (s s1 : State) :
  provision pup usb s = (Ok tt, s1) →
  tree (os (boot_recovery pup usb s).2) = tree (os s1)
  ∧ self (boot_recovery pup usb s).2 = self s1.
Proof.
  intros Hp. unfold boot_recovery, bind. rewrite Hp.
  rewrite try_finally_total
    by (intros s0; destruct (recovery_cleanup_eq s0) as (s2 & ? & _); by exists s2).
  destruct (recovery_cleanup_eq (call_recovery_entry s1).2) as (s' & Hc & _ & Ht & Hs).
  rewrite Hc. cbn [snd].
  pose proof (call_recovery_entry_keeps_tree s1) as Kt.
  pose proof (call_recovery_entry_keeps_self s1) as Ks. unfold keeps in Kt, Ks.
  split; congruence.
Qed.




Lemma provision_fresh (pup : path) (data : bytes) (s : State) :
  read_file (tree (os s)) pup = Ok data →
  tree_closed (tree (os s)) →
  is_dir (tree (os s)) (tmp_root (os s)) = true →
  ∃ nm, tree (os s) !! (tmp_root (os s) ++ [nm]) = None
    ∧ provision (Some pup) None s
      = (Ok tt,
         let d := tmp_root (os s) ++ [nm] in
         add_log (Tr "modules.recovery.copied" [("dest", path_str (staged_pup d))])
           (add_log (Tr "modules.recovery.prepared" [("path", path_str d)])
              (set_self (λ l, with_last_usb_dir (Some d) (with_vusb_dir (Some d) l))
                 (set_os (λ o, with_environ
                                 (<[RECOVERY_PUP := path_str (staged_pup d)]> (environ o)) o)
                    (set_tree (<[staged_pup d := File data]>
                                 (<[d := Dir]> (tree (os s)))) s))))).
Proof.
  intros Hread Hcl Hroot.
  destruct (mkdtemp_fresh "gscx_usb_" s Hroot) as (nm & Hmk & Hfresh).
  exists nm. split; [exact Hfresh |]. cbv zeta.
  set (d := tmp_root (os s) ++ [nm]) in *.
  assert (Hpup : tree (os s) !! pup = Some (File data)).
  { unfold read_file, lookup_node in Hread. destruct pup; [done |].
    destruct (tree (os s) !! (s0 :: pup)) as [[] |]; congruence. }
  assert (Hdest : tree (os s) !! staged_pup d = None).
  { apply eq_None_not_Some. intros Hx.
    assert (tree (os s) !! d = Some Dir); [| congruence].
    apply (Hcl d "PS3UPDAT.PUP" Hx). unfold d. by destruct (tmp_root (os s)). }
  assert (Hne : pup ≠ d) by congruence.
  assert (Hne' : d ≠ staged_pup d).
  { unfold staged_pup. intros Heq. apply (f_equal length) in Heq.
    rewrite length_app in Heq. simpl in Heq. lia. }
  unfold provision. mcbv. rewrite Hmk. mcbv.
  unfold shutil_copy2, open_read, os_path_isdir, open_write, on_tree, setenv. mcbv.
  fold (staged_pup d). cbn [os tree set_tree set_os set_self with_tree].
  assert (Hread1 : read_file (<[d := Dir]> (tree (os s))) pup = Ok data).
  { unfold read_file. rewrite lookup_node_ne_nil by (intros ->; done).
    by rewrite lookup_insert_ne, Hpup. }
  rewrite Hread1.
  assert (Hnd : is_dir (<[d := Dir]> (tree (os s))) (staged_pup d) = false).
  { unfold is_dir. rewrite lookup_node_ne_nil by (unfold staged_pup; by destruct d).
    by rewrite lookup_insert_ne, Hdest. }
  rewrite Hnd.
  unfold staged_pup in *. rewrite write_file_ok.
  - reflexivity.
  - rewrite lookup_node_ne_nil by (unfold d; by destruct (tmp_root (os s))).
    apply lookup_insert_eq.
  - by rewrite lookup_insert_ne, Hdest.
Qed.

(** X12: without a directory from the caller, [boot_recovery] stages the
    image in a new directory under the temporary root and records it; the
    directory is never cleaned up by the loader: the copy is still there
    after [boot_recovery] and after a following [unload_all], which
    removes the staging directory of a bundle only. *)
Theorem virtual_usb_survives (pup : path) (data : bytes) (s : State) :
  read_file (tree (os s)) pup = Ok data →
  tree_closed (tree (os s)) →
  is_dir (tree (os s)) (tmp_root (os s)) = true →
  (∀ t, _temp_dir (self s) = Some t →
        is_Some (tree (os s) !! t) ∧ ¬ t `prefix_of` tmp_root (os s)) →
  ∃ nm,
    let d := tmp_root (os s) ++ [nm] in
    let s' := (boot_recovery (Some pup) None s).2 in
    let s'' := (unload_all s').2 in
    tree (os s) !! d = None
    ∧ _vusb_dir (self s') = Some d
    ∧ last_usb_dir (self s') = Some d
    ∧ tree (os s') !! staged_pup d = Some (File data)
    ∧ tree (os s'') !! staged_pup d = Some (File data)
    ∧ tree (os s'') !! d = Some Dir
    ∧ _vusb_dir (self s'') = Some d
    ∧ last_usb_dir (self s'') = Some d.
Proof.
  intros Hread Hcl Hroot Htemp.
  destruct (provision_fresh pup data s Hread Hcl Hroot) as (nm & Hfresh & Hp).
  exists nm. cbv zeta. set (d := tmp_root (os s) ++ [nm]) in *.
  destruct (boot_recovery_after _ _ _ _ Hp) as [Ht Hs].
  cbv zeta in Ht, Hs. fold d in Ht, Hs. cbn in Ht, Hs.
  set (s' := (boot_recovery (Some pup) None s).2) in *.
  assert (Hd : d ≠ []) by (unfold d; by destruct (tmp_root (os s))).
  assert (Hdest : tree (os s) !! staged_pup d = None).
  { apply eq_None_not_Some. intros Hx.
    assert (tree (os s) !! d = Some Dir); [| congruence]. by apply (Hcl d "PS3UPDAT.PUP" Hx). }
  assert (Hne : d ≠ staged_pup d).
  { unfold staged_pup. intros Heq. apply (f_equal length) in Heq.
    rewrite length_app in Heq. simpl in Heq. lia. }
  assert (Hout : ∀ t, _temp_dir (self s') = Some t → ¬ t `prefix_of` staged_pup d).
  { intros t Htd Hpre. rewrite Hs in Htd. cbn in Htd.
    destruct (Htemp t Htd) as [[x Hin] Hnp]. unfold staged_pup in Hpre, Hdest.
    apply prefix_snoc_cases in Hpre as [-> | Hpre]; [congruence |].
    unfold d in Hpre, Hfresh.
    apply prefix_snoc_cases in Hpre as [-> | Hpre]; [congruence | done]. }
  destruct (unload_all_keeps_usb s') as [Hv Hl]. rewrite Hv, Hl, Hs.
  rewrite !unload_all_outside, Ht.
  - split_and!; try done; try apply lookup_insert_eq;
      by rewrite lookup_insert_ne, lookup_insert_eq.
  - intros t Htd Hpre. apply (Hout t Htd). etrans; [exact Hpre |]. by exists ["PS3UPDAT.PUP"].
  - exact Hout.
Qed.

Lemma virtual_usb_survives_witness :
  ∃ nm,
    let d := ["tmp"] ++ [nm] in
    let s' := (boot_recovery (Some ["tmp"; "fw.pup"]) None staging_recovery).2 in
    let s'' := (unload_all s').2 in
    tree (os staging_recovery) !! d = None
    ∧ _vusb_dir (self s') = Some d
    ∧ last_usb_dir (self s') = Some d
    ∧ tree (os s') !! staged_pup d = Some (File [x53; x43; x45])
    ∧ tree (os s'') !! staged_pup d = Some (File [x53; x43; x45])
    ∧ tree (os s'') !! d = Some Dir
    ∧ _vusb_dir (self s'') = Some d
    ∧ last_usb_dir (self s'') = Some d.
Proof.
  apply (virtual_usb_survives ["tmp"; "fw.pup"] [x53; x43; x45] staging_recovery).
  - vm_compute. reflexivity.
  - apply closedb_closed. vm_compute. reflexivity.
  - vm_compute. reflexivity.
  - intros t [= <-]. split.
    + exists Dir. vm_compute. reflexivity.
    + intros [r Hr]. discriminate Hr.
Defined.

Lemma read_file_still_raises (t t' : gmap path node) (p : path) (e : exn) :
  (∀ q, t' !! q = t !! q ∨ t' !! q = Some Dir) →
  read_file t p = Raise e → ∃ e', read_file t' p = Raise e'.
Proof.
  intros H. unfold read_file, lookup_node. destruct p as [| c p]; [by eexists |].
  destruct (H (c :: p)) as [-> | ->]; [| by eexists].
  destruct (t !! (c :: p)) as [[] |]; by eexists.
Qed.

Lemma provision_unreadable (pup : path) (usb : option path) (e : exn) (s : State) :
  read_file (tree (os s)) pup = Raise e →
  ∃ e' s', provision (Some pup) usb s = (Raise e', s')
    ∧ calls s' = calls s
    ∧ environ (os s') = environ (os s)
    ∧ last_usb_dir (self s') = last_usb_dir (self s)
    ∧ loaded (self s') = loaded (self s)
    ∧ last (log s') = Some (Tr "modules.recovery.prepare_fail" [("error", exn_str e')]).
Proof.
  intros Hread. unfold provision. destruct usb as [u |].
  - unfold os_makedirs, on_tree. mcbv.
    destruct (makedirs (tree (os s)) u) as [[[] | e1] t1] eqn:Hmk.
    + destruct (read_file_still_raises (tree (os s)) t1 pup e) as (e' & He'); [| done |].
      { intros q. destruct (makedirs_go_lookup _ _ _ _ _ Hmk q) as [? | (_ & ? & _)]; auto. }
      unfold shutil_copy2, open_read. mcbv. cbn [os tree set_tree set_os with_tree].
      rewrite He'. eexists _, _. split; [reflexivity |].
      cbn. rewrite last_snoc. done.
    + eexists _, _. split; [reflexivity |]. cbn. rewrite last_snoc. done.
  - unfold tempfile_mkdtemp. mcbv.
    destruct (is_dir (tree (os s)) (tmp_root (os s))).
    + mcbv. unfold shutil_copy2, open_read. mcbv.
      cbn [os tree set_tree set_os set_self with_tree].
      match goal with
      | |- context [read_file ?t' pup] =>
          destruct (read_file_still_raises (tree (os s)) t' pup e) as (e' & He'); [| done |]
      end.
      { intros q. match goal with
                  | |- (<[?d := _]> _) !! _ = _ ∨ _ =>
                      destruct (decide (d = q)) as [<- | Hn];
                        [right; apply lookup_insert_eq | left; by apply lookup_insert_ne]
                  end. }
      rewrite He'. eexists _, _. split; [reflexivity |].
      cbn. rewrite last_snoc. done.
    + eexists _, _. split; [reflexivity |]. cbn. rewrite last_snoc. done.
Qed.

(** X13: when the firmware image cannot be read, [boot_recovery] logs the
    failure and raises before it looks for the recovery module: no native
    entry point is called, the process environment is as before (an
    earlier binding of [GSCX_RECOVERY_PUP] is not cleared) and
    [get_last_usb_dir] returns what it returned before. *)
Theorem boot_recovery_unreadable_image (pup : path) (usb : option path) (e : exn)
    (s : State) :
  read_file (tree (os s)) pup = Raise e →
  ∃ e' s', boot_recovery (Some pup) usb s = (Raise e', s')
    ∧ calls s' = calls s
    ∧ environ (os s') = environ (os s)
    ∧ (get_last_usb_dir s').1 = (get_last_usb_dir s).1
    ∧ loaded (self s') = loaded (self s)
    ∧ last (log s') = Some (Tr "modules.recovery.prepare_fail" [("error", exn_str e')]).
Proof.
  intros Hread.
  destruct (provision_unreadable pup usb e s Hread)
    as (e' & s' & Hp & Hc & He & Hl & Hm & Hlog).
  exists e', s'. unfold boot_recovery, bind. rewrite Hp.
  unfold get_last_usb_dir, gets. cbn. by rewrite Hl.
Qed.

Lemma boot_recovery_unreadable_image_witness :
  ∃ e' s', boot_recovery (Some ["tmp"; "missing.pup"]) None recovery_throws = (Raise e', s')
    ∧ calls s' = []
    ∧ environ (os s') !! RECOVERY_PUP = Some "/old/PS3UPDAT.PUP".
Proof.
  destruct (boot_recovery_unreadable_image ["tmp"; "missing.pup"] None FileNotFoundError
              recovery_throws) as (e' & s' & H & Hc & He & _).
  - vm_compute. reflexivity.
  - exists e', s'. split_and!; [exact H | exact Hc |]. rewrite He. vm_compute. reflexivity.
Defined.

(** ** The verdicts of the boot stages *)

Lemma native_stage_verdict (banner : string) (prefix sym : string) (dflt : bool)
    (on_true on_false on_missing on_absent : M bool) (h : exn → M bool) (s : State) :
  (∀ s0, ∃ s1, on_true s0 = (Ok true, s1) ∧ os s1 = os s0 ∧ self s1 = self s0
               ∧ calls s1 = calls s0) →
  (∀ s0, ∃ s1, on_false s0 = (Ok false, s1) ∧ os s1 = os s0 ∧ self s1 = self s0
               ∧ calls s1 = calls s0) →
  (∀ s0, ∃ s1, on_missing s0 = (Ok false, s1) ∧ os s1 = os s0 ∧ self s1 = self s0
               ∧ calls s1 = calls s0) →
  (∀ s0, ∃ s1, on_absent s0 = (Ok dflt, s1) ∧ os s1 = os s0 ∧ self s1 = self s0
               ∧ calls s1 = calls s0) →
  (∀ e s0, ∃ s1, h e s0 = (Ok false, s1) ∧ os s1 = os s0 ∧ self s1 = self s0
                 ∧ calls s1 = calls s0) →
  ∃ s', try_except
          (_log (Text banner) ;;
           l <- gets (λ s, loaded (self s)) ;;
           match find_loaded prefix l with
           | Some (name, lib) =>
             try_except
               (f <- getattr lib sym ;;
                result <- call name sym f ;;
                if result then on_true else on_false)
               is_AttributeError
               (λ _, on_missing)
           | None => on_absent
           end)
          Exception h s
        = (Ok (entry_verdict prefix sym dflt (loaded (self s))), s')
    ∧ os s' = os s ∧ self s' = self s
    ∧ calls s' = calls s
                 ++ entry_calls sym (option_list (find_loaded prefix (loaded (self s)))).
Proof.
  intros Ht Hf Hm Ha Hh. unfold entry_verdict. mcbv. cbn [self add_log].
  assert (Hfin : ∀ (b : bool) (s0 s1 : State) (c : list (string * string)),
             os s1 = os s0 → self s1 = self s0 → calls s1 = calls s0 →
             os s0 = os s → self s0 = self s → calls s0 = calls s ++ c →
             ∃ s', (Ok b, s1) = (Ok b, s') ∧ os s' = os s ∧ self s' = self s
                   ∧ calls s' = calls s ++ c).
  { intros b s0 s1 c ? ? ? ? ? ?. exists s1. split_and!; congruence. }
  destruct (find_loaded prefix (loaded (self s))) as [[name lib] |];
    unfold entry_calls; cbn [option_list option_rect omap list_omap fst snd].
  - unfold getattr, call. destruct (lib !! sym) as [[[] | e] |]; mcbv.
    + destruct (Ht (add_call (name, sym) (add_log (Text banner) s))) as (s1 & -> & ? & ? & ?).
      by eapply Hfin.
    + destruct (Hf (add_call (name, sym) (add_log (Text banner) s))) as (s1 & -> & ? & ? & ?).
      by eapply Hfin.
    + destruct (is_AttributeError e).
      * destruct (Hm (add_call (name, sym) (add_log (Text banner) s)))
          as (s1 & -> & ? & ? & ?).
        by eapply Hfin.
      * destruct (Hh e (add_call (name, sym) (add_log (Text banner) s)))
          as (s1 & -> & ? & ? & ?).
        by eapply Hfin.
    + destruct (Hm (add_log (Text banner) s)) as (s1 & -> & ? & ? & ?).
      eapply Hfin; try done. cbn. by rewrite app_nil_r.
  - destruct (Ha (add_log (Text banner) s)) as (s1 & -> & ? & ? & ?).
    eapply Hfin; try done. cbn. by rewrite app_nil_r.
Qed.

Ltac logs_only := intros; mcbv; eexists; split_and!; reflexivity.

Lemma boot_lv0_stage_verdict (s : State) :
  ∃ s', boot_lv0_stage s
        = (Ok (entry_verdict "gscx_bootloader" "GSCX_LV0_Entry" false (loaded (self s))), s')
    ∧ os s' = os s ∧ self s' = self s
    ∧ calls s' = calls s ++ entry_calls "GSCX_LV0_Entry"
                              (option_list (find_loaded "gscx_bootloader" (loaded (self s)))).
Proof. unfold boot_lv0_stage. apply native_stage_verdict; logs_only. Qed.

Lemma boot_lv1_stage_verdict (s : State) :
  ∃ s', boot_lv1_stage s
        = (Ok (entry_verdict "gscx_hypervisor" "GSCX_LV1_Entry" false (loaded (self s))), s')
    ∧ os s' = os s ∧ self s' = self s
    ∧ calls s' = calls s ++ entry_calls "GSCX_LV1_Entry"
                              (option_list (find_loaded "gscx_hypervisor" (loaded (self s)))).
Proof. unfold boot_lv1_stage. apply native_stage_verdict; logs_only. Qed.

Lemma initialize_syscon_verdict (s : State) :
  ∃ s', initialize_syscon s
        = (Ok (entry_verdict "gscx_syscon" "GSCX_SYSCON_Initialize" true (loaded (self s))), s')
    ∧ os s' = os s ∧ self s' = self s
    ∧ calls s' = calls s ++ entry_calls "GSCX_SYSCON_Initialize"
                              (option_list (find_loaded "gscx_syscon" (loaded (self s)))).
Proof. unfold initialize_syscon. apply native_stage_verdict; logs_only. Qed.

(** X14: the three stages that hand over to native code never raise and
    make at most one native call. Each returns what the entry point of
    its module returned; a module that raises or does not export the
    entry point makes the stage fail. Without their module the LV0 and
    LV1 stages fail, whereas [initialize_syscon] passes on its virtual
    controller. None of them changes the loader or the world outside. *)
Theorem native_stage_verdicts (s : State) :
  let l := loaded (self s) in
  (∃ s', boot_lv0_stage s
         = (Ok (entry_verdict "gscx_bootloader" "GSCX_LV0_Entry" false l), s')
     ∧ os s' = os s ∧ self s' = self s
     ∧ calls s' = calls s ++ entry_calls "GSCX_LV0_Entry"
                               (option_list (find_loaded "gscx_bootloader" l)))
  ∧ (∃ s', boot_lv1_stage s
           = (Ok (entry_verdict "gscx_hypervisor" "GSCX_LV1_Entry" false l), s')
       ∧ os s' = os s ∧ self s' = self s
       ∧ calls s' = calls s ++ entry_calls "GSCX_LV1_Entry"
                                 (option_list (find_loaded "gscx_hypervisor" l)))
  ∧ (∃ s', initialize_syscon s
           = (Ok (entry_verdict "gscx_syscon" "GSCX_SYSCON_Initialize" true l), s')
       ∧ os s' = os s ∧ self s' = self s
       ∧ calls s' = calls s ++ entry_calls "GSCX_SYSCON_Initialize"
                                 (option_list (find_loaded "gscx_syscon" l))).
Proof.
  cbv zeta. split_and!.
  - apply boot_lv0_stage_verdict.
  - apply boot_lv1_stage_verdict.
  - apply initialize_syscon_verdict.
Qed.

(** The LV2 stage calls no module: it only looks at the names of the
    registered modules. *)
Lemma boot_lv2_stage_verdict (s : State) :
  ∃ s', boot_lv2_stage s
        = (Ok (existsb (λ m : string * Lib, startswith m.1 "gscx_cpu_cell") (loaded (self s))
               && existsb (λ m : string * Lib, startswith m.1 "gscx_gpu_rsx")
                    (loaded (self s))), s')
    ∧ os s' = os s ∧ self s' = self s ∧ calls s' = calls s.
Proof.
  unfold boot_lv2_stage. mcbv. cbn [self add_log].
  destruct (existsb _ (loaded (self s))), (existsb _ (loaded (self s))); cbn;
    eexists; split_and!; reflexivity.
Qed.

Lemma native_stage_verdicts_witness :
  (boot_lv0_stage crashing_state).1 = Ok false
  ∧ (boot_lv1_stage crashing_state).1 = Ok false
  ∧ (initialize_syscon crashing_state).1 = Ok true.
Proof.
  destruct (native_stage_verdicts crashing_state)
    as ((s0 & H0 & _) & (s1 & H1 & _) & (s2 & H2 & _)).
  rewrite H0, H1, H2. split_and!; vm_compute; reflexivity.
Defined.

(** ** The virtual flash of a fresh loader *)

Lemma insert_closed (t : gmap path node) (p : path) (c : string) (n : node) :
  tree_closed t →
  (p ≠ [] → t !! p = Some Dir) →
  n = Dir ∨ t !! (p ++ [c]) ≠ Some Dir →
  tree_closed (<[p ++ [c] := n]> t).
Proof.
  intros Hcl Hp Hn q c' [x Hx] Hq.
  destruct (decide (q = p ++ [c])) as [-> | Hne].
  - rewrite lookup_insert_ne in Hx.
    + assert (Hd : t !! (p ++ [c]) = Some Dir) by (apply (Hcl _ c'); [by eexists | done]).
      destruct Hn as [-> | Hn]; [apply lookup_insert_eq | done].
    + intros Heq. apply (f_equal length) in Heq. rewrite !length_app in Heq. simpl in Heq. lia.
  - rewrite lookup_insert_ne by done.
    destruct (decide (p ++ [c] = q ++ [c'])) as [Heq | Hne'].
    + apply app_inj_tail in Heq as [-> _]. by apply Hp.
    + rewrite lookup_insert_ne in Hx by done. apply (Hcl q c'); [by eexists | done].
Qed.

Lemma makedirs_go_closed (rest : list string) :
  ∀ t cur r t', makedirs_go t cur rest = (r, t') →
    tree_closed t → (cur ≠ [] → t !! cur = Some Dir) → tree_closed t'.
Proof.
  induction rest as [| c rest IH]; intros t cur r t' H Hcl Hcur; cbn [makedirs_go] in H.
  - by injection H as _ <-.
  - destruct (t !! (cur ++ [c])) as [[d |] |] eqn:E.
    + by injection H as _ <-.
    + eapply IH; [exact H | done | done].
    + eapply IH; [exact H | |].
      * apply insert_closed; [done | done | by left].
      * intros _. apply lookup_insert_eq.
Qed.

Lemma write_file_closed (t t' : gmap path node) (p : path) (data : bytes) (r : res unit) :
  write_file t p data = (r, t') → tree_closed t → tree_closed t'.
Proof.
  unfold write_file. intros H Hcl. destruct p as [| a p]; [by injection H as _ <- |].
  destruct (removelast_snoc (a :: p)) as (c & Hsnoc); [done |].
  destruct (lookup_node t (removelast (a :: p))) as [[] |] eqn:Hpar;
    try by injection H as _ <-.
  destruct (t !! (a :: p)) as [[] |] eqn:Hp; try (by injection H as _ <-);
    injection H as _ <-; rewrite Hsnoc at 1;
    (apply insert_closed; [done | | right; rewrite <- Hsnoc; congruence]);
    intros Hne; by rewrite lookup_node_ne_nil in Hpar.
Qed.

Global Instance closes_preorder : PreOrder closes.
Proof.
  split; [intros s H; exact H | intros s1 s2 s3 H12 H23 H; by apply H23, H12].
Qed.

Lemma closes_makedirs (p : path) : stable closes (os_makedirs p).
Proof.
  intros s Hcl. unfold os_makedirs, on_tree, makedirs.
  destruct (makedirs_go (tree (os s)) [] p) as [r t'] eqn:H. cbn.
  by eapply makedirs_go_closed.
Qed.

Lemma closes_open_write (p : path) (data : bytes) : stable closes (open_write p data).
Proof.
  intros s Hcl. unfold open_write, on_tree.
  destruct (write_file (tree (os s)) p data) as [r t'] eqn:H. cbn.
  by eapply write_file_closed.
Qed.

Lemma closes_same {A} (m : M A) :
  (∀ s, tree (os (m s).2) = tree (os s)) → stable closes m.
Proof. intros H s Hcl. by rewrite H. Qed.

Lemma closes_mkdtemp (prefix : string) : stable closes (tempfile_mkdtemp prefix).
Proof.
  intros s Hcl. unfold tempfile_mkdtemp.
  destruct (is_dir (tree (os s)) (tmp_root (os s))) eqn:Hroot; [| done]. cbn.
  apply insert_closed; [done | | by left].
  intros Hne. unfold is_dir in Hroot. rewrite lookup_node_ne_nil in Hroot by done.
  by destruct (tree (os s) !! tmp_root (os s)) as [[] |].
Qed.

Ltac closes_leaf :=
  first [ apply closes_makedirs | apply closes_open_write | apply closes_mkdtemp
        | apply closes_same; intros ?; reflexivity ].

Ltac closes_auto := repeat stable_step; try closes_leaf.

Lemma populate_closes (base : path) : stable closes (populate base).
Proof. unfold populate, write_placeholders, _log. closes_auto. Qed.

Lemma initialize_virtual_flash_closes : stable closes initialize_virtual_flash.
Proof.
  unfold initialize_virtual_flash, write_placeholders, _log. closes_auto.
Qed.

Global Instance only_at_preorder (base : path) : PreOrder (only_at base).
Proof.
  split; [by intros s q _ _ |].
  intros s1 s2 s3 H12 H23 q H1 H2. by rewrite H23, H12.
Qed.

Lemma only_at_makedirs (base p : path) :
  base `prefix_of` p ∨ p `prefix_of` base → stable (only_at base) (os_makedirs p).
Proof.
  intros Hp s q Hq1 Hq2. unfold os_makedirs, on_tree, makedirs.
  destruct (makedirs_go (tree (os s)) [] p) as [r t'] eqn:H. cbn.
  destruct (makedirs_go_lookup _ _ _ _ _ H q) as [-> | (_ & _ & k & Hk & ->)]; [done |].
  cbn in Hq1, Hq2. exfalso.
  destruct Hq2 as [Hq2 | Hq2].
  { apply (f_equal length) in Hq2. rewrite length_take in Hq2. simpl in Hq2. lia. }
  destruct Hp as [[r' ->] | Hp].
  - destruct (decide (k ≤ length base)%nat) as [Hle | Hgt].
    + apply Hq2. rewrite take_app_le by done. apply take_prefix.
    + apply Hq1. rewrite take_app_ge by lia. by eexists.
  - apply Hq2. etrans; [apply take_prefix | exact Hp].
Qed.

Lemma only_at_open_write (base p : path) (data : bytes) :
  base `prefix_of` p → stable (only_at base) (open_write p data).
Proof.
  intros Hp s q Hq1 Hq2. unfold open_write, on_tree.
  destruct (write_file (tree (os s)) p data) as [r t'] eqn:H. cbn.
  apply write_file_inv in H as [[-> _] | [_ ->]]; [done |].
  apply lookup_insert_ne. by intros ->.
Qed.

Lemma only_at_same (base : path) {A} (m : M A) :
  (∀ s, tree (os (m s).2) = tree (os s)) → stable (only_at base) m.
Proof. intros H s q _ _. by rewrite H. Qed.

Lemma populate_only_at (base : path) : stable (only_at base) (populate base).
Proof.
  unfold populate, write_placeholders, _log.
  repeat stable_step;
    first [ apply only_at_makedirs; left; apply prefix_app_r; reflexivity
          | apply only_at_makedirs; left; reflexivity
          | apply only_at_open_write; apply prefix_app_r; reflexivity
          | apply only_at_same; intros ?; reflexivity ].
Qed.

(** The directories of the layout can be created when no regular file is
    in the way. *)
Lemma layout_dirs_succeed (base : path) (names : list string) :
  ∀ s,
    (∀ k, (0 < k ≤ length base)%nat → tree (os s) !! take k base = Some Dir) →
    (∀ p d, p ∈ names → tree (os s) !! (base ++ [p]) ≠ Some (File d)) →
    ∃ s', forM_ names (λ p, os_makedirs (base ++ [p])) s = (Ok tt, s').
Proof.
  induction names as [| p names IH]; intros s Hanc Hfree; [by eexists |].
  cbn [forM_]. unfold bind.
  destruct (makedirs_go_succeeds (base ++ [p]) (tree (os s)) []) as (t1 & Hmk).
  { intros k d Hk. cbn. rewrite length_app in Hk. cbn in Hk.
    destruct (decide (k ≤ length base)%nat) as [Hle | Hgt].
    - rewrite take_app_le by done. rewrite Hanc by lia. done.
    - rewrite take_ge by (rewrite length_app; simpl; lia). apply Hfree. by left. }
  unfold os_makedirs at 1, on_tree, makedirs. rewrite Hmk.
  apply IH; cbn.
  - intros k Hk. eapply makedirs_go_preserves; [exact Hmk | by apply Hanc].
  - intros p' d Hp'.
    destruct (makedirs_go_lookup _ _ _ _ _ Hmk (base ++ [p'])) as [-> | (_ & -> & _)];
      [apply Hfree; by right | done].
Qed.

Lemma populate_run (base : path) (s : State) :
  base ≠ [] →
  (∀ k d, (0 < k ≤ length base)%nat → tree (os s) !! take k base ≠ Some (File d)) →
  (∀ p d, p ∈ layout_dirs → tree (os s) !! (base ++ [p]) ≠ Some (File d)) →
  (∀ q, q ∈ placeholder_paths base → tree (os s) !! q ≠ Some Dir) →
  ∃ t', populate base s
        = (Ok (flash_info base),
           add_log (Text ("[VFLASH] Virtual flash initialized at " +:+ path_str base))
             (set_self (with_vflash_info (Some (flash_info base))) (set_tree t' s)))
    ∧ placeholders_written base t'
    ∧ t' !! base = Some Dir
    ∧ (∀ p, p ∈ layout_dirs → t' !! (base ++ [p]) = Some Dir)
    ∧ (∀ q n, tree (os s) !! q = Some n → q ∉ placeholder_paths base → t' !! q = Some n)
    ∧ (∀ q, ¬ base `prefix_of` q → q = [] ∨ ¬ q `prefix_of` base →
            t' !! q = tree (os s) !! q).
Proof.
  intros Hbase Hway Hfree Hfiles.
  destruct (makedirs_go_succeeds base (tree (os s)) []) as (t1 & Hmk); [exact Hway |].
  pose proof (makedirs_go_ok _ _ _ _ Hmk) as Hok. cbn in Hok.
  assert (Hb1 : t1 !! base = Some Dir) by (by eapply makedirs_ok_dir).
  destruct (layout_dirs_succeed base layout_dirs (set_tree t1 s)) as (s2 & H2).
  { exact Hok. }
  { intros p d Hp. cbn.
    erewrite makedirs_go_long; [by apply Hfree | exact Hmk |].
    rewrite length_app. simpl. lia. }
  pose proof H2 as H2'.
  apply layout_dirs_created in H2' as (t2 & -> & Hd & Hpres & Hlong). cbn in Hpres, Hlong.
  destruct (write_placeholders_ok base (set_tree t2 (set_tree t1 s))) as (t3 & Hw & Hp & Hrest).
  { intros p Hp. cbn. apply Hd. unfold layout_dirs, partitions, ros_slots.
    rewrite !elem_of_app. revert Hp. rewrite !elem_of_cons. tauto. }
  { intros q Hq. cbn. pose proof (placeholder_long base q Hq) as Hl.
    assert (Hl' : (length base + 1 < length q)%nat).
    { unfold placeholder_paths in Hq.
      repeat (apply elem_of_cons in Hq as [-> | Hq]; [rewrite length_app; simpl; lia |]).
      by apply elem_of_nil in Hq. }
    rewrite Hlong by done.
    erewrite makedirs_go_long; [by apply Hfiles | exact Hmk | simpl; lia]. }
  cbn in Hrest. exists t3. split_and!.
  - unfold populate. fold layout_dirs. unfold bind at 1.
    unfold os_makedirs at 1, on_tree, makedirs. rewrite Hmk.
    unfold bind at 1. rewrite H2. mcbv. rewrite Hw. cbn.
    unfold flash_info, add_log, set_self, set_tree, set_os. cbn. reflexivity.
  - exact Hp.
  - rewrite Hrest; [by apply Hpres |]. intros Hin. apply placeholder_long in Hin. lia.
  - intros p Hin. rewrite Hrest; [by apply Hd |].
    intros Hq. unfold placeholder_paths in Hq.
    repeat (apply elem_of_cons in Hq as [Hq | Hq];
            [apply (f_equal length) in Hq; rewrite !length_app in Hq; simpl in Hq; lia |]).
    by apply elem_of_nil in Hq.
  - intros q n Hq Hnot. rewrite Hrest by done. apply Hpres.
    eapply makedirs_go_preserves; [exact Hmk | exact Hq].
  - intros q Hnb Hnq. pose proof (populate_only_at base s q Hnb Hnq) as Hout.
    revert Hout. unfold populate. fold layout_dirs. unfold bind at 1.
    unfold os_makedirs at 1, on_tree, makedirs. rewrite Hmk.
    unfold bind at 1. rewrite H2. mcbv. rewrite Hw. cbn. done.
Qed.

Lemma below_missing (t : gmap path node) (d r : path) :
  tree_closed t → d ≠ [] → t !! d = None → t !! (d ++ r) = None.
Proof.
  intros Hcl Hd Hnone. destruct r as [| c r]; [by rewrite app_nil_r |].
  apply eq_None_not_Some. intros Hx.
  assert (t !! d = Some Dir); [| congruence]. by apply (closed_ancestor t d (c :: r)).
Qed.

Lemma above_dir (t : gmap path node) (root q : path) :
  tree_closed t → is_dir t root = true → q `prefix_of` root → q ≠ [] → t !! q = Some Dir.
Proof.
  intros Hcl Hroot [r ->] Hq. unfold is_dir in Hroot.
  rewrite lookup_node_ne_nil in Hroot by (by destruct q).
  destruct r as [| c r].
  - rewrite app_nil_r in Hroot. by destruct (t !! q) as [[] |].
  - apply (closed_ancestor t q (c :: r)); [done | | done | done].
    by destruct (t !! (q ++ c :: r)) as [[] |].
Qed.

(** The state a fresh loader is in after [initialize_virtual_flash]. *)
Lemma initialize_virtual_flash_fresh_run (s : State) :
  no_flash s →
  tree_closed (tree (os s)) →
  is_dir (tree (os s)) (tmp_root (os s)) = true →
  ∃ nm t',
    let d := tmp_root (os s) ++ [nm] in
    let base := d ++ ["vflash"] in
    tree (os s) !! d = None
    ∧ initialize_virtual_flash s
      = (Ok (flash_info base),
         add_log (Text ("[VFLASH] Virtual flash initialized at " +:+ path_str base))
           (set_self (λ l, with_vflash_info (Some (flash_info base))
                             (with_vflash_dir (Some base) (with_temp_dir (Some d) l)))
              (set_tree t' s)))
    ∧ placeholders_written base t'
    ∧ t' !! d = Some Dir
    ∧ t' !! base = Some Dir
    ∧ (∀ p, p ∈ layout_dirs → t' !! (base ++ [p]) = Some Dir)
    ∧ (∀ q, ¬ d `prefix_of` q → t' !! q = tree (os s) !! q)
    ∧ tree_closed t'.
Proof.
  intros (Hvd & Hvi & Htd) Hcl Hroot.
  destruct (mkdtemp_fresh "gscx_runtime_" s Hroot) as (nm & Hmk & Hfresh).
  exists nm. cbv zeta.
  set (d := tmp_root (os s) ++ [nm]) in *. set (base := d ++ ["vflash"]).
  assert (Hd : d ≠ []) by (unfold d; by destruct (tmp_root (os s))).
  assert (Hbase : base ≠ []) by (unfold base; by destruct d).
  set (s1 := set_self (with_vflash_dir (Some base))
               (set_self (with_temp_dir (Some d)) (set_tree (<[d := Dir]> (tree (os s))) s))).
  assert (Hbelow : ∀ r, r ≠ [] → tree (os s1) !! (d ++ r) = None).
  { intros r Hr. cbn. rewrite lookup_insert_ne.
    - by apply below_missing.
    - intros Heq. apply (f_equal length) in Heq. rewrite length_app in Heq.
      destruct r; simpl in *; [done | lia]. }
  destruct (populate_run base s1 Hbase) as (t' & Hrun & Hw & Hb & Hdirs & Hpres & Hout).
  { intros k dd Hk. unfold base, d in *. rewrite !length_app in Hk. simpl in Hk.
    destruct (decide (k ≤ length (tmp_root (os s)))%nat) as [Hle | Hgt].
    - rewrite <- app_assoc, take_app_le by done. cbn.
      rewrite lookup_insert_ne.
      + rewrite (above_dir _ (tmp_root (os s))); [done | done | done | apply take_prefix |].
        intros Heq. apply (f_equal length) in Heq. rewrite length_take in Heq.
        simpl in Heq. lia.
      + intros Heq. apply (f_equal length) in Heq.
        rewrite length_app, length_take in Heq. simpl in Heq. lia.
    - destruct (decide (k = S (length (tmp_root (os s))))) as [-> | Hne].
      + rewrite take_app_le by (rewrite length_app; simpl; lia).
        rewrite take_ge by (rewrite length_app; simpl; lia).
        cbn. by rewrite lookup_insert_eq.
      + rewrite take_ge by (rewrite !length_app; simpl; lia).
        fold d. rewrite Hbelow; done. }
  { intros p dd Hp. unfold base. rewrite <- app_assoc. by rewrite Hbelow. }
  { intros q Hq. unfold placeholder_paths, base in Hq.
    repeat (apply elem_of_cons in Hq as [-> | Hq];
            [rewrite <- app_assoc; by rewrite Hbelow |]).
    by apply elem_of_nil in Hq. }
  exists t'. split_and!; try done.
  - rewrite initialize_virtual_flash_populate. mcbv. rewrite Hvd, Htd, Hmk. mcbv.
    fold d. fold base. fold s1. rewrite Hrun. cbn. unfold s1. reflexivity.
  - apply Hpres; [cbn; apply lookup_insert_eq |].
    intros Hin. apply placeholder_long in Hin. unfold base in Hin.
    rewrite length_app in Hin. simpl in Hin. lia.
  - intros q Hq.
    assert (Hqd : q ≠ d) by (by intros ->).
    destruct (decide (base `prefix_of` q)) as [Hbq | Hbq].
    { exfalso. apply Hq. etrans; [| exact Hbq]. by exists ["vflash"]. }
    destruct (decide (q `prefix_of` base)) as [Hqb | Hqb].
    + unfold base in Hqb. apply prefix_snoc_cases in Hqb as [-> | Hqb].
      { exfalso. apply Hbq. reflexivity. }
      unfold d in Hqb. apply prefix_snoc_cases in Hqb as [-> | Hqb]; [done |].
      destruct (decide (q = [])) as [-> | Hne].
      * rewrite Hout; [| done | by left]. cbn. by rewrite lookup_insert_ne.
      * rewrite (above_dir _ _ q Hcl Hroot Hqb Hne).
        apply Hpres; [cbn; rewrite lookup_insert_ne by done;
                      by apply (above_dir _ (tmp_root (os s))) |].
        intros Hin. apply placeholder_long in Hin. apply prefix_length in Hqb.
        unfold base, d in Hin. rewrite !length_app in Hin. simpl in Hin. lia.
    + rewrite Hout; [| done | by right]. cbn. by rewrite lookup_insert_ne.
  - pose proof (initialize_virtual_flash_closes s Hcl) as Hc.
    revert Hc. rewrite initialize_virtual_flash_populate. mcbv. rewrite Hvd, Htd, Hmk. mcbv.
    fold d. fold base. fold s1. rewrite Hrun. cbn. done.
Qed.

Lemma set_tree_same (s : State) : set_tree (tree (os s)) s = s.
Proof. by destruct s as [[] ? ? ?]. Qed.

Lemma os_makedirs_existing (p : path) (s : State) :
  (∀ k, (0 < k ≤ length p)%nat → tree (os s) !! take k p = Some Dir) →
  os_makedirs p s = (Ok tt, s).
Proof.
  intros H. unfold os_makedirs, on_tree, makedirs.
  rewrite makedirs_go_existing by exact H. by rewrite set_tree_same.
Qed.

Lemma open_write_same (p : path) (c : string) (data : bytes) (s : State) :
  lookup_node (tree (os s)) p = Some Dir →
  tree (os s) !! (p ++ [c]) = Some (File data) →
  open_write (p ++ [c]) data s = (Ok tt, s).
Proof.
  intros Hp Hc. unfold open_write, on_tree.
  rewrite write_file_ok; [| done | by rewrite Hc].
  by rewrite insert_id, set_tree_same.
Qed.

Lemma forM_same {A} (l : list A) (f : A → M unit) (s : State) :
  (∀ x, x ∈ l → f x s = (Ok tt, s)) → forM_ l f s = (Ok tt, s).
Proof.
  induction l as [| x l IH]; intros H; [done |].
  cbn [forM_]. unfold bind. rewrite H by (by left). apply IH. intros y Hy. apply H. by right.
Qed.

Lemma flash_ready_ancestors (base : path) (s : State) :
  flash_ready base s →
  ∀ k, (0 < k ≤ length base)%nat → tree (os s) !! take k base = Some Dir.
Proof.
  intros (_ & _ & Hb & Hcl & _ & Hd) k Hk.
  apply (closed_ancestor _ (take k base) (drop k base ++ ["bootloader"]) Hcl).
  - rewrite app_assoc, take_drop. rewrite Hd; [by eexists |].
    unfold layout_dirs, partitions, ros_slots. rewrite !elem_of_app, !elem_of_cons. tauto.
  - by destruct (drop k base).
  - intros Heq. apply (f_equal length) in Heq. rewrite length_take in Heq. simpl in Heq. lia.
Qed.

(** On an intact layout, [populate] changes nothing but the log. *)
Lemma populate_intact (base : path) (s : State) :
  flash_ready base s →
  populate base s
  = (Ok (flash_info base),
     add_log (Text ("[VFLASH] Virtual flash initialized at " +:+ path_str base)) s).
Proof.
  intros Hr. pose proof (flash_ready_ancestors base s Hr) as Hanc.
  destruct Hr as (Hvd & Hvi & Hb & Hcl & Hw & Hd).
  assert (Hsub : ∀ p, p ∈ layout_dirs → lookup_node (tree (os s)) (base ++ [p]) = Some Dir).
  { intros p Hp. rewrite lookup_node_ne_nil by (by destruct base). by apply Hd. }
  unfold populate. fold layout_dirs. unfold bind at 1.
  rewrite os_makedirs_existing by exact Hanc.
  unfold bind at 1. rewrite forM_same.
  2:{ intros p Hp. apply os_makedirs_existing. intros k Hk.
      rewrite length_app in Hk. simpl in Hk.
      destruct (decide (k ≤ length base)%nat).
      - rewrite take_app_le by done. apply Hanc. lia.
      - rewrite take_ge by (rewrite length_app; simpl; lia). by apply Hd. }
  unfold bind at 1.
  assert (Hwp : write_placeholders base s = (Ok tt, s)).
  { destruct Hw as (H1 & H2 & H3 & H4 & H5 & H6).
    unfold write_placeholders, ros_slots. cbn [forM_]. unfold bind, ret.
    rewrite !app2.
    rewrite !open_write_same; rewrite <- ?app2; try done;
      apply Hsub; unfold layout_dirs, partitions, ros_slots;
      rewrite !elem_of_app, !elem_of_cons; tauto. }
  unfold try_except. rewrite Hwp. mcbv.
  unfold flash_info in *. f_equal. unfold add_log, set_self. cbn.
  destruct s as [o [] lg cs]. cbn in *. by rewrite Hvi.
Qed.

Lemma initialize_virtual_flash_intact (base : path) (s : State) :
  flash_ready base s →
  initialize_virtual_flash s
  = (Ok (flash_info base),
     add_log (Text ("[VFLASH] Virtual flash initialized at " +:+ path_str base)) s).
Proof.
  intros Hr. rewrite initialize_virtual_flash_populate. mcbv.
  destruct Hr as (Hvd & Hr'). rewrite Hvd. mcbv.
  by rewrite (populate_intact base s (conj Hvd Hr')).
Qed.

Lemma stub_positive : (0 <? blen stub)%N = true.
Proof. reflexivity. Qed.

Lemma flash_ready_frame (base : path) (s s' : State) :
  flash_ready base s →
  tree (os s') = tree (os s) →
  _vflash_dir (self s') = _vflash_dir (self s) →
  _vflash_info (self s') = _vflash_info (self s) →
  flash_ready base s'.
Proof. unfold flash_ready. intros (? & ? & ? & ? & ? & ?) -> -> ->. done. Qed.

(** With an intact layout the boot chain validates on slot [ros0],
    without touching the world. *)
Lemma validate_boot_chain_intact (base : path) (s : State) :
  flash_ready base s →
  ∃ s', validate_boot_chain s = (Ok true, s')
    ∧ os s' = os s
    ∧ self s' = with_active_ros (Some "ros0") (self s).
Proof.
  intros (Hvd & Hvi & Hb & Hcl & Hw & Hd).
  destruct Hw as (_ & H0 & H1 & _).
  unfold validate_boot_chain. munfold. simpl.
  rewrite select_ros_slot_eq.
  erewrite get_vflash_info_cached by (simpl; exact Hvi).
  simpl. unfold slot_valid. simpl. rewrite H0, stub_positive. simpl.
  erewrite (_verify_lv0_and_appldr_eq _ (flash_info base) "ros0")
    by (simpl; first [exact Hvi | reflexivity]).
  unfold file_ok. simpl. rewrite H0, H1, stub_positive. simpl.
  eexists. split; [reflexivity |]. simpl. done.
Qed.

(** A fresh loader lays out the flash while it validates the boot
    chain, and then finds what it wrote. *)
Lemma validate_boot_chain_fresh_run (s : State) :
  no_flash s →
  tree_closed (tree (os s)) →
  is_dir (tree (os s)) (tmp_root (os s)) = true →
  ∃ nm s',
    let base := tmp_root (os s) ++ [nm; "vflash"] in
    validate_boot_chain s = (Ok true, s')
    ∧ flash_ready base s'
    ∧ tree (os s) !! (tmp_root (os s) ++ [nm]) = None
    ∧ _temp_dir (self s') = Some (tmp_root (os s) ++ [nm])
    ∧ _active_ros (self s') = Some "ros0"
    ∧ loaded (self s') = loaded (self s)
    ∧ calls s' = calls s
    ∧ tmp_root (os s') = tmp_root (os s)
    ∧ (∀ q, ¬ (tmp_root (os s) ++ [nm]) `prefix_of` q →
            tree (os s') !! q = tree (os s) !! q).
Proof.
  intros Hno Hcl Hroot.
  unfold validate_boot_chain. munfold. simpl.
  rewrite select_ros_slot_eq.
  match goal with |- context [get_vflash_info ?x] => set (s0 := x) end.
  destruct (initialize_virtual_flash_fresh_run s0)
    as (nm & t' & Hfresh & Hrun & Hw & Hdd & Hbd & Hdirs & Hout & Hcl'); try done.
  cbv zeta in *. cbn [os tree tmp_root s0 add_log] in Hfresh, Hrun, Hw, Hdd, Hbd, Hdirs, Hout.
  set (d := tmp_root (os s) ++ [nm]) in *. set (base := d ++ ["vflash"]) in *.
  exists nm.
  replace (tmp_root (os s) ++ [nm; "vflash"]) with base
    by (unfold base, d; by rewrite <- app_assoc).
  unfold get_vflash_info. munfold.
  destruct Hno as (Hvd & Hvi & Htd).
  replace (_vflash_info (self s0)) with (@None vinfo) by (by rewrite <- Hvi).
  rewrite Hrun.
  pose proof Hw as (_ & H0 & H1 & _).
  simpl. unfold slot_valid. simpl. rewrite H0, stub_positive. simpl.
  match goal with |- context [_verify_lv0_and_appldr ?x] => set (s2 := x) end.
  rewrite (_verify_lv0_and_appldr_eq s2 (flash_info base) "ros0")
    by (unfold s2; reflexivity).
  unfold file_ok. cbv zeta. unfold s2. simpl. rewrite H0, H1, stub_positive. simpl.
  eexists. split; [reflexivity |]. simpl.
  split_and!; try done. unfold flash_ready. simpl. split_and!; try done.
  unfold base. by destruct d.
Qed.

(** Step 3.5 of the boot sequence on an intact layout. *)
Lemma flash_mount_stage_intact (base : path) (s : State) :
  flash_ready base s →
  ∃ s', flash_mount_stage s = (Ok true, s')
    ∧ os s' = os s ∧ self s' = self s ∧ calls s' = calls s.
Proof.
  intros Hr. unfold flash_mount_stage. mcbv.
  rewrite (initialize_virtual_flash_intact base) by (eapply flash_ready_frame; eauto).
  unfold mount_virtual_flash. mcbv. cbn [self add_log].
  destruct Hr as (_ & -> & _). mcbv.
  eexists. split_and!; reflexivity.
Qed.

Lemma hardware_detect_stage_passes (s : State) :
  ∃ s', hardware_detect_stage s = (Ok true, s')
    ∧ os s' = os s ∧ self s' = self s ∧ calls s' = calls s.
Proof.
  unfold hardware_detect_stage, perform_hardware_detection. mcbv.
  eexists. split_and!; reflexivity.
Qed.

(** X15: whether the boot sequence succeeds is decided by the registered
    modules alone, once the virtual flash is intact or not laid out yet:
    the validation of the boot chain and the flash stage then always
    pass, because the loader checks the stubs it wrote itself. The
    sequence returns [True] exactly when the SYSCON module (if there is
    one), the boot loader and the hypervisor return [True] from their
    entry points and a CPU and a GPU module are registered. *)
Theorem execute_full_boot_sequence_verdict (s : State) :
  flash_bootable s →
  (execute_full_boot_sequence s).1 = Ok (modules_verdict (loaded (self s))).
Proof.
  intros Hflash. rewrite execute_full_boot_sequence_eq. cbv zeta. cbn [fst].
  unfold modules_verdict, boot_stages. cbn [run_stages].
  destruct (hardware_detect_stage_passes (boot_start s)) as (s1 & -> & Ho1 & Hs1 & _).
  destruct (initialize_syscon_verdict s1) as (s2 & -> & Ho2 & Hs2 & _).
  rewrite Hs1. cbn [boot_start add_log self].
  destruct (entry_verdict "gscx_syscon" _ _ _); [| done]. cbn [andb].
  assert (Hval : ∃ base s3, validate_boot_chain s2 = (Ok true, s3)
                   ∧ flash_ready base s3 ∧ loaded (self s3) = loaded (self s)).
  { destruct Hflash as [(Hno & Hcl & Hroot) | [base Hr]].
    - destruct (validate_boot_chain_fresh_run s2)
        as (nm & s3 & Hv & Hr & _ & _ & _ & Hl & _).
      + unfold no_flash. by rewrite Hs2, Hs1.
      + by rewrite Ho2, Ho1.
      + by rewrite Ho2, Ho1.
      + eexists _, s3. split_and!; [exact Hv | exact Hr |]. by rewrite Hl, Hs2, Hs1.
    - destruct (validate_boot_chain_intact base s2) as (s3 & Hv & Ho3 & Hs3).
      + eapply flash_ready_frame; [exact Hr | ..]; by rewrite ?Ho2, ?Ho1, ?Hs2, ?Hs1.
      + exists base, s3. split_and!; [exact Hv | |].
        * eapply flash_ready_frame; [exact Hr | ..];
            by rewrite ?Ho3, ?Ho2, ?Ho1, ?Hs3, ?Hs2, ?Hs1.
        * by rewrite Hs3, Hs2, Hs1. }
  destruct Hval as (base & s3 & -> & Hr3 & Hl3).
  destruct (flash_mount_stage_intact base s3 Hr3) as (s4 & -> & _ & Hs4 & _).
  destruct (boot_lv0_stage_verdict s4) as (s5 & -> & _ & Hs5 & _).
  rewrite Hs4, Hl3.
  destruct (entry_verdict "gscx_bootloader" _ _ _); [| done]. cbn [andb].
  destruct (boot_lv1_stage_verdict s5) as (s6 & -> & _ & Hs6 & _).
  rewrite Hs5, Hs4, Hl3.
  destruct (entry_verdict "gscx_hypervisor" _ _ _); [| done]. cbn [andb].
  destruct (boot_lv2_stage_verdict s6) as (s7 & -> & _ & _ & _).
  rewrite Hs6, Hs5, Hs4, Hl3.
  by destruct (existsb _ (loaded (self s))), (existsb _ (loaded (self s))).
Qed.

Lemma execute_full_boot_sequence_verdict_witness :
  (execute_full_boot_sequence (booting_state true)).1 = Ok true
  ∧ (execute_full_boot_sequence crashing_state).1 = Ok false.
Proof.
  split.
  - rewrite execute_full_boot_sequence_verdict; [vm_compute; reflexivity |].
    left. split_and!; [done | apply closedb_closed; vm_compute; reflexivity
                      | vm_compute; reflexivity].
  - rewrite execute_full_boot_sequence_verdict; [vm_compute; reflexivity |].
    left. split_and!; [done | apply closedb_closed; vm_compute; reflexivity
                      | vm_compute; reflexivity].
Defined.

(** X16: on a loader without flash and staging directory,
    [initialize_virtual_flash] succeeds whenever the temporary root
    exists. It makes a new directory there, records it as the staging
    directory, the one [unload_all] and [load_from_gscore] remove, and
    lays out the flash in its [vflash] subdirectory: the seven
    directories and the six placeholder files. Nothing outside the new
    directory changes. *)
Theorem initialize_virtual_flash_fresh (s : State) :
  no_flash s →
  tree_closed (tree (os s)) →
  is_dir (tree (os s)) (tmp_root (os s)) = true →
  ∃ nm s',
    let d := tmp_root (os s) ++ [nm] in
    let base := d ++ ["vflash"] in
    tree (os s) !! d = None
    ∧ initialize_virtual_flash s = (Ok (flash_info base), s')
    ∧ _temp_dir (self s') = Some d
    ∧ flash_ready base s'
    ∧ loaded (self s') = loaded (self s)
    ∧ (∀ q, ¬ d `prefix_of` q → tree (os s') !! q = tree (os s) !! q).
Proof.
  intros Hno Hcl Hroot.
  destruct (initialize_virtual_flash_fresh_run s Hno Hcl Hroot)
    as (nm & t' & Hfresh & Hrun & Hw & Hdd & Hbd & Hdirs & Hout & Hcl').
  cbv zeta in *. exists nm. eexists. split_and!; [exact Hfresh | exact Hrun | ..]; cbn.
  - done.
  - unfold flash_ready. cbn. split_and!; try done. by destruct (tmp_root (os s)).
  - done.
  - exact Hout.
Qed.

Lemma initialize_virtual_flash_fresh_witness :
  ∃ nm s',
    let d := tmp_root (os example_state) ++ [nm] in
    let base := d ++ ["vflash"] in
    tree (os example_state) !! d = None
    ∧ initialize_virtual_flash example_state = (Ok (flash_info base), s')
    ∧ _temp_dir (self s') = Some d
    ∧ flash_ready base s'
    ∧ loaded (self s') = loaded (self example_state)
    ∧ (∀ q, ¬ d `prefix_of` q → tree (os s') !! q = tree (os example_state) !! q).
Proof.
  apply (initialize_virtual_flash_fresh example_state).
  - done.
  - apply closedb_closed. vm_compute. reflexivity.
  - vm_compute. reflexivity.
Defined.

(** X17: on an intact layout the flash calls are idempotent:
    [initialize_virtual_flash] returns the same dictionary and changes
    nothing but the log, [get_vflash_info] returns the cached dictionary
    and changes nothing at all, and [mount_virtual_flash] returns [True]
    after logging the three partitions. *)
Theorem flash_calls_idempotent (base : path) (s : State) :
  flash_ready base s →
  initialize_virtual_flash s
  = (Ok (flash_info base),
     add_log (Text ("[VFLASH] Virtual flash initialized at " +:+ path_str base)) s)
  ∧ get_vflash_info s = (Ok (flash_info base), s)
  ∧ mount_virtual_flash s
    = (Ok true,
       add_log (Text "[VFLASH] Partitions mounted: dev_flash, dev_flash2, dev_flash3") s).
Proof.
  intros Hr. split_and!.
  - by apply initialize_virtual_flash_intact.
  - apply get_vflash_info_cached. by destruct Hr as (_ & ? & _).
  - unfold mount_virtual_flash. mcbv. destruct Hr as (_ & -> & _). reflexivity.
Qed.

Lemma flash_ready_initialized : flash_ready flash_base initialized_state.
Proof.
  unfold flash_ready. split_and!.
  - vm_compute. reflexivity.
  - vm_compute. reflexivity.
  - done.
  - apply closedb_closed. vm_compute. reflexivity.
  - unfold placeholders_written. split_and!; vm_compute; reflexivity.
  - intros p Hp. unfold layout_dirs, partitions, ros_slots in Hp. cbn in Hp.
    repeat (apply elem_of_cons in Hp as [-> | Hp]; [vm_compute; reflexivity |]).
    by apply elem_of_nil in Hp.
Qed.

Lemma flash_calls_idempotent_witness :
  initialize_virtual_flash initialized_state
  = (Ok (flash_info flash_base),
     add_log (Text ("[VFLASH] Virtual flash initialized at " +:+ path_str flash_base))
       initialized_state)
  ∧ get_vflash_info initialized_state = (Ok (flash_info flash_base), initialized_state)
  ∧ mount_virtual_flash initialized_state
    = (Ok true,
       add_log (Text "[VFLASH] Partitions mounted: dev_flash, dev_flash2, dev_flash3")
         initialized_state).
Proof. apply (flash_calls_idempotent flash_base initialized_state flash_ready_initialized). Defined.

(** X18: [unload_all] removes the staging directory and, with it, the
    virtual flash a loader laid out there, but keeps the flash
    dictionary. [get_vflash_info] then still returns the dictionary of
    the deleted layout, no ROS slot is valid any more, the boot chain does
    not validate and the boot sequence fails. *)
Theorem unload_all_drops_flash (base d : path) (s : State) :
  flash_ready base s →
  _temp_dir (self s) = Some d →
  d `prefix_of` base →
  unlocked_below s d →
  let s' := (unload_all s).2 in
  (∀ q, base `prefix_of` q → tree (os s') !! q = None)
  ∧ get_vflash_info s' = (Ok (flash_info base), s')
  ∧ (select_ros_slot None s').1 = Ok None
  ∧ (validate_boot_chain s').1 = Ok false
  ∧ (execute_full_boot_sequence s').1 = Ok false.
Proof.
  intros Hr Htd Hpre Hun. cbv zeta.
  pose proof (flash_ready_ancestors base s Hr) as Hanc.
  destruct Hr as (Hvd & Hvi & Hb & Hcl & Hw & Hd).
  assert (Hdir : is_dir (tree (os s)) d = true).
  { unfold is_dir, lookup_node. destruct d as [| c d]; [done |].
    destruct Hpre as [r Hr]. specialize (Hanc (length (c :: d))).
    rewrite Hr, take_app_length in Hanc. rewrite Hanc; [done |].
    rewrite length_app. simpl. lia. }
  assert (Hgone : ∀ q, base `prefix_of` q → tree (os (unload_all s).2) !! q = None).
  { intros q Hq. rewrite unload_all_run. cbv zeta. rewrite Htd. cbn.
    rewrite rmtree_lookup, Hdir.
    rewrite bool_decide_eq_true_2 by (by etrans).
    rewrite not_pinned; [done |]. intros r Hr. apply Hun. etrans; [| exact Hr]. by etrans. }
  assert (Hinfo : _vflash_info (self (unload_all s).2) = Some (flash_info base)).
  { rewrite unload_all_run. cbv zeta. rewrite Htd. cbn. exact Hvi. }
  assert (Hl : loaded (self (unload_all s).2) = []).
  { rewrite unload_all_run. cbv zeta. by rewrite Htd. }
  set (s' := (unload_all s).2) in *.
  assert (Hslot : ∀ s0 slot, tree (os s0) = tree (os s') →
                             slot_valid s0 base slot = false).
  { intros s0 slot Ht. unfold slot_valid. rewrite Ht, Hgone; [done |]. by eexists. }
  split_and!.
  - exact Hgone.
  - by apply get_vflash_info_cached.
  - rewrite select_ros_slot_eq, (get_vflash_info_cached s' _ Hinfo). cbn.
    by rewrite !Hslot.
  - destruct (validate_boot_chain_no_slot s' (flash_info base) Hinfo) as (s2 & -> & _);
      [by apply Hslot .. | done].
  - rewrite execute_full_boot_sequence_eq. cbv zeta. cbn [fst]. unfold boot_stages.
    cbn [run_stages].
    destruct (hardware_detect_stage_passes (boot_start s')) as (s1 & -> & Ho1 & Hs1 & _).
    destruct (initialize_syscon_verdict s1) as (s2 & -> & Ho2 & Hs2 & _).
    rewrite Hs1. cbn [boot_start add_log self]. rewrite Hl. cbn.
    destruct (validate_boot_chain_no_slot s2 (flash_info base)) as (s3 & -> & _).
    + by rewrite Hs2, Hs1.
    + apply Hslot. by rewrite Ho2, Ho1.
    + apply Hslot. by rewrite Ho2, Ho1.
    + done.
Qed.

Lemma unload_all_drops_flash_witness :
  let s' := (unload_all initialized_state).2 in
  (∀ q, flash_base `prefix_of` q → tree (os s') !! q = None)
  ∧ get_vflash_info s' = (Ok (flash_info flash_base), s')
  ∧ (select_ros_slot None s').1 = Ok None
  ∧ (validate_boot_chain s').1 = Ok false
  ∧ (execute_full_boot_sequence s').1 = Ok false.
Proof.
  apply (unload_all_drops_flash flash_base ["tmp"; "gscx_runtime_"] initialized_state).
  - exact flash_ready_initialized.
  - vm_compute. reflexivity.
  - by exists ["vflash"].
  - intros r _. vm_compute. discriminate.
Defined.

(** ** Cleaning the partitions *)







(** ** A flash that cannot be laid out *)

Lemma initialize_virtual_flash_no_tmp (s : State) :
  no_flash s →
  is_dir (tree (os s)) (tmp_root (os s)) = false →
  initialize_virtual_flash s
  = (Raise FileNotFoundError,
     add_log (Text "[VFLASH] Error initializing virtual flash: FileNotFoundError") s).
Proof.
  intros (Hvd & Hvi & Htd) Hroot. unfold initialize_virtual_flash, tempfile_mkdtemp. mcbv.
  by rewrite Hvd, Htd, Hroot.
Qed.

Lemma get_vflash_info_no_tmp (s : State) :
  no_flash s →
  is_dir (tree (os s)) (tmp_root (os s)) = false →
  get_vflash_info s
  = (Raise FileNotFoundError,
     add_log (Text "[VFLASH] Error initializing virtual flash: FileNotFoundError") s).
Proof.
  intros Hno Hroot. unfold get_vflash_info. mcbv.
  destruct Hno as (Hvd & Hvi & Htd). rewrite Hvi.
  by apply initialize_virtual_flash_no_tmp.
Qed.

Lemma validate_boot_chain_no_tmp (s : State) :
  no_flash s →
  is_dir (tree (os s)) (tmp_root (os s)) = false →
  (validate_boot_chain s).1 = Ok false.
Proof.
  intros Hno Hroot. unfold validate_boot_chain. munfold. simpl.
  rewrite select_ros_slot_eq. rewrite get_vflash_info_no_tmp by done. reflexivity.
Qed.

(** X20: when the flash cannot be laid out (a loader without flash whose
    temporary root is missing), the methods fall into two groups. The
    queries hide the failure: [mount_virtual_flash] returns [False],
    [select_ros_slot] returns [None], the boot chain does not validate and
    the boot sequence returns [False]. The maintenance calls let the
    [FileNotFoundError] through, because they ask for the flash dictionary
    outside their [try] blocks. *)
Theorem flash_unavailable (s : State) :
  no_flash s →
  is_dir (tree (os s)) (tmp_root (os s)) = false →
  (mount_virtual_flash s).1 = Ok false
  ∧ (∀ preferred, (select_ros_slot preferred s).1 = Ok None)
  ∧ (validate_boot_chain s).1 = Ok false
  ∧ (execute_full_boot_sequence s).1 = Ok false
  ∧ (initialize_virtual_flash s).1 = Raise FileNotFoundError
  ∧ (get_vflash_info s).1 = Raise FileNotFoundError
  ∧ (format_virtual_flash s).1 = Raise FileNotFoundError
  ∧ (∀ p, (clean_vflash_partition p s).1 = Raise FileNotFoundError)
  ∧ (clean_all_vflash_partitions s).1 = Raise FileNotFoundError.
Proof.
  intros Hno Hroot.
  pose proof (initialize_virtual_flash_no_tmp s Hno Hroot) as Hinit.
  pose proof (get_vflash_info_no_tmp s Hno Hroot) as Hget.
  split_and!.
  - unfold mount_virtual_flash. mcbv. destruct Hno as (_ & -> & _). by rewrite Hinit.
  - intros preferred. by rewrite select_ros_slot_eq, Hget.
  - by apply validate_boot_chain_no_tmp.
  - rewrite execute_full_boot_sequence_eq. cbv zeta. cbn [fst]. unfold boot_stages.
    cbn [run_stages].
    destruct (hardware_detect_stage_passes (boot_start s)) as (s1 & -> & Ho1 & Hs1 & _).
    destruct (initialize_syscon_verdict s1) as (s2 & -> & Ho2 & Hs2 & _).
    destruct (entry_verdict "gscx_syscon" _ _ _); [| done].
    pose proof (validate_boot_chain_no_tmp s2) as Hv.
    destruct (validate_boot_chain s2) as [r s3]. cbn in Hv. rewrite Hv; [done | |].
    + unfold no_flash. by rewrite Hs2, Hs1.
    + by rewrite Ho2, Ho1.
  - by rewrite Hinit.
  - by rewrite Hget.
  - unfold format_virtual_flash, bind. by rewrite Hget.
  - intros p. unfold clean_vflash_partition, bind. by rewrite Hget.
  - unfold clean_all_vflash_partitions, bind. by rewrite Hget.
Qed.

Lemma flash_unavailable_witness :
  (mount_virtual_flash no_tmp_state).1 = Ok false
  ∧ (execute_full_boot_sequence no_tmp_state).1 = Ok false
  ∧ (format_virtual_flash no_tmp_state).1 = Raise FileNotFoundError.
Proof.
  destruct (flash_unavailable no_tmp_state) as (Hm & _ & _ & Hb & _ & _ & Hf & _).
  - done.
  - vm_compute. reflexivity.
  - done.
Defined.

(** ** The entry table, read back *)

Lemma slice_split (data : bytes) (lo mid hi : N) :
  (lo ≤ mid ≤ hi)%N → slice data lo hi = slice data lo mid ++ slice data mid hi.
Proof.
  intros H. unfold slice.
  set (l := N.min lo (blen data)). set (m := N.min mid (blen data)).
  set (h := N.min hi (blen data)).
  assert (Hl : (l ≤ m ≤ h)%N) by (unfold l, m, h; lia).
  replace (drop (N.to_nat m) data) with (drop (N.to_nat (m - l)) (drop (N.to_nat l) data))
    by (rewrite drop_drop; f_equal; lia).
  rewrite take_take_drop. f_equal. lia.
Qed.

Lemma slice_length (data : bytes) (lo hi : N) :
  (lo ≤ hi ≤ blen data)%N → length (slice data lo hi) = N.to_nat (hi - lo).
Proof.
  intros H. pose proof (blen_slice data lo hi) as Hb. unfold blen in *.
  rewrite !N.min_l in Hb by lia. lia.
Qed.

Lemma le_uint_bound (bs : bytes) : (le_uint bs < 256 ^ N.of_nat (length bs))%N.
Proof.
  induction bs as [| b bs IH]; [cbn; lia |].
  cbn [le_uint foldr length]. fold (le_uint bs).
  pose proof (Byte.to_N_bounded b).
  rewrite Nat2N.inj_succ, N.pow_succ_r'. lia.
Qed.

Lemma le_bytes_le_uint (bs : bytes) : le_bytes (length bs) (le_uint bs) = bs.
Proof.
  induction bs as [| b bs IH]; [done |].
  cbn [le_uint foldr length le_bytes]. fold (le_uint bs).
  pose proof (Byte.to_N_bounded b).
  replace ((Byte.to_N b + 256 * le_uint bs) mod 256)%N with (Byte.to_N b)
    by (rewrite (N.mul_comm 256), N.Div0.mod_add, N.mod_small; lia).
  replace ((Byte.to_N b + 256 * le_uint bs) / 256)%N with (le_uint bs)
    by (rewrite (N.mul_comm 256), N.div_add, N.div_small; lia).
  rewrite IH. unfold byte_of_N. by rewrite Byte.of_to_N.
Qed.

Lemma le_bytes_slice (data : bytes) (off : N) (w : nat) :
  (off + N.of_nat w ≤ blen data)%N →
  le_bytes w (le_uint (slice data off (off + N.of_nat w))) = slice data off (off + N.of_nat w).
Proof.
  intros H.
  assert (Hl : length (slice data off (off + N.of_nat w)) = w)
    by (rewrite slice_length by lia; lia).
  rewrite <- Hl at 1. apply le_bytes_le_uint.
Qed.

Lemma le_uint_slice_bound (data : bytes) (off : N) (w : nat) :
  (off + N.of_nat w ≤ blen data)%N →
  (le_uint (slice data off (off + N.of_nat w)) < 256 ^ N.of_nat w)%N.
Proof.
  intros H. pose proof (le_uint_bound (slice data off (off + N.of_nat w))) as Hb.
  rewrite slice_length in Hb by lia. by replace (N.to_nat (off + N.of_nat w - off)) with w
    in Hb by lia.
Qed.

Lemma parse_entries_table (data : bytes) (count : nat) :
  ∀ off acc es tend,
    (off ≤ blen data)%N →
    parse_entries data count off acc = Ok (es, tend) →
    ∃ es', es = acc ++ es'
      ∧ length es' = count
      ∧ (off ≤ tend ≤ blen data)%N
      ∧ slice data off tend = encode_table es'
      ∧ Forall fits es'.
Proof.
  induction count as [| count IH]; intros off acc es tend Hoff H.
  { injection H as <- <-. exists []. rewrite app_nil_r.
    split_and!; try done; try lia.
    unfold slice. replace (N.min off (blen data) - N.min off (blen data))%N with 0%N by lia.
    done. }
  cbn [parse_entries] in H. unfold res_bind, unpack_HH, unpack_II, decode_utf8 in H.
  destruct (N.leb_spec (off + 4) (blen data)) as [H4 | ?]; [| done].
  cbn [fst snd] in H.
  set (nl := le_uint (slice data (off + 2) (off + 4))) in *.
  destruct (utf8_valid (slice data (off + 4) (off + 4 + nl))) eqn:Hutf; [| done].
  destruct (N.leb_spec (off + 4 + nl + 8) (blen data)) as [H8 | ?]; [| done].
  cbn [fst snd] in H.
  apply IH in H as (es' & -> & Hlen & Hend & Hsl & Hfits); [| lia].
  set (ty := le_uint (slice data off (off + 2))) in *.
  set (nb := slice data (off + 4) (off + 4 + nl)) in *.
  set (po := le_uint (slice data (off + 4 + nl) (off + 4 + nl + 4))) in *.
  set (sz := le_uint (slice data (off + 4 + nl + 4) (off + 4 + nl + 8))) in *.
  assert (Hnb : blen nb = nl).
  { unfold nb. rewrite blen_slice. lia. }
  assert (Hname : list_byte_of_string (string_of_list_byte nb) = nb)
    by apply list_byte_of_string_of_list_byte.
  exists ((ty, string_of_list_byte nb, po, sz) :: es').
  refine (conj _ (conj _ (conj _ (conj _ _)))).
  - by rewrite <- app_assoc.
  - cbn. by rewrite Hlen.
  - lia.
  - unfold encode_table in *. cbn [map concat]. rewrite <- Hsl.
    unfold encode_entry. rewrite Hname, Hnb.
    rewrite (slice_split data off (off + 4 + nl + 8) tend) by lia.
    rewrite <- !app_assoc. 
    rewrite (slice_split data off (off + 2) (off + 4 + nl + 8)) by lia.
    rewrite (slice_split data (off + 2) (off + 4) (off + 4 + nl + 8)) by lia.
    rewrite (slice_split data (off + 4) (off + 4 + nl) (off + 4 + nl + 8)) by lia.
    rewrite (slice_split data (off + 4 + nl) (off + 4 + nl + 4) (off + 4 + nl + 8)) by lia.
    rewrite <- !app_assoc.
    pose proof (le_bytes_slice data off 2) as Hty.
    pose proof (le_bytes_slice data (off + 2) 2) as Hnl.
    pose proof (le_bytes_slice data (off + 4 + nl) 4) as Hpo.
    pose proof (le_bytes_slice data (off + 4 + nl + 4) 4) as Hsz.
    change (N.of_nat 2) with 2%N in Hty, Hnl. change (N.of_nat 4) with 4%N in Hpo, Hsz.
    replace (off + 2 + 2)%N with (off + 4)%N in Hnl by lia.
    replace (off + 4 + nl + 4 + 4)%N with (off + 4 + nl + 8)%N in Hsz by lia.
    fold ty in Hty. fold nl in Hnl. fold po in Hpo. fold sz in Hsz.
    rewrite Hty, Hnl, Hpo, Hsz by lia. reflexivity.
  - apply Forall_cons. split; [| exact Hfits].
    pose proof (le_uint_slice_bound data off 2) as Hty.
    pose proof (le_uint_slice_bound data (off + 2) 2) as Hnl.
    pose proof (le_uint_slice_bound data (off + 4 + nl) 4) as Hpo.
    pose proof (le_uint_slice_bound data (off + 4 + nl + 4) 4) as Hsz.
    change (N.of_nat 2) with 2%N in Hty, Hnl. change (N.of_nat 4) with 4%N in Hpo, Hsz.
    replace (off + 2 + 2)%N with (off + 4)%N in Hnl by lia.
    replace (off + 4 + nl + 4 + 4)%N with (off + 4 + nl + 8)%N in Hsz by lia.
    fold ty in Hty. fold nl in Hnl. fold po in Hpo. fold sz in Hsz.
    unfold fits. cbn [fst snd]. rewrite Hname, Hnb.
    change (256 ^ 2)%N with (2 ^ 16)%N in *. change (256 ^ 4)%N with (2 ^ 32)%N in *.
    split_and!; [apply Hty | apply Hnl | apply Hpo | apply Hsz | exact Hutf]; lia.
Qed.

(** X7: the entry table is read without gaps and without looking
    ahead: when the table of a container parses, the entries read are as
    many as the header announces, every field has the width of the
    format and every name is valid UTF-8, and writing the entries out
    again gives back exactly the bytes of the table, from offset 8 to
    where the reader stopped. *)
Theorem parse_entries_reads_table (data : bytes) (entries : list entry) (tend : N) :
  has_header data →
  parse_entries data (header_count data) 8 [] = Ok (entries, tend) →
  length entries = header_count data
  ∧ (8 ≤ tend ≤ blen data)%N
  ∧ Forall fits entries
  ∧ slice data 8 tend = encode_table entries
  ∧ tend = (8 + blen (encode_table entries))%N.
Proof.
  intros [Hlen _] Hparse.
  destruct (parse_entries_table data (header_count data) 8 [] entries tend Hlen Hparse)
    as (es' & -> & Hn & Hend & Hsl & Hfits).
  cbn [app]. refine (conj Hn (conj Hend (conj Hfits (conj Hsl _)))).
  rewrite <- Hsl, blen_slice. lia.
Qed.

Lemma parse_entries_reads_table_witness :
  length (layout two_files 63) = header_count (pack 1 two_files)
  ∧ (8 ≤ 63 ≤ blen (pack 1 two_files))%N
  ∧ Forall fits (layout two_files 63)
  ∧ slice (pack 1 two_files) 8 63 = encode_table (layout two_files 63)
  ∧ 63%N = (8 + blen (encode_table (layout two_files 63)))%N.
Proof.
  apply (parse_entries_reads_table (pack 1 two_files) (layout two_files 63) 63).
  - split; [vm_compute; discriminate | vm_compute; reflexivity].
  - vm_compute. reflexivity.
Defined.

(** ** From the bundle to the registered modules *)





